(** * BerryDB intrusive doubly linked list (src/util/linked_list.h)

    A shallow embedding of [LinkedListNode], [LinkedListBridge] and
    [LinkedList] together with the proofs of the properties stated in the
    specification of the module.

    Memory is a finite map from addresses to node records.  A C++ pointer is
    an address ([Z], [nullptr] is [0]); dereferencing an address that holds no
    node is undefined behaviour.  Every method takes the heap and returns the
    new heap inside the [result] monad, whose failure cases separate a fatal
    CHECK from undefined behaviour.

    The preprocessor switch [BERRYDB_CHECK_IS_ON()] is the boolean [check]
    that all operations take as their first argument. *)

From stdpp Require Import gmap list.
From Stdlib Require Import ZArith Lia.

Local Open Scope Z_scope.

(** ** Outcomes of an operation *)

Inductive result (A : Type) : Type :=
| Ok (a : A)
| Fatal
| Undefined
| OutOfFuel.

Arguments Ok {A} a.
Arguments Fatal {A}.
Arguments Undefined {A}.
Arguments OutOfFuel {A}.

#[global] Instance result_ret : MRet result := @Ok.
#[global] Instance result_bind : MBind result := fun A B f m =>
  match m with
  | Ok a => f a
  | Fatal => Fatal
  | Undefined => Undefined
  | OutOfFuel => OutOfFuel
  end.

(** ** Memory *)

Definition nullptr : Z := 0.

(** [size_t] is taken to be 64 bits wide, and so are addresses. *)
Definition size_modulus : Z := 2 ^ 64.

(** The fields of [LinkedListNode].  [list_sentinel_] only exists when CHECKs
    are enabled; with CHECKs disabled no operation reads or writes it. *)
Record LinkedListNode : Type := mkNode {
  next_ : Z;
  prev_ : Z;
  list_sentinel_ : Z;
}.

#[global] Instance LinkedListNode_eq_dec : EqDecision LinkedListNode.
Proof. solve_decision. Defined.

Abbreviation heap := (gmap Z LinkedListNode).

Definition set_next (v : Z) (nd : LinkedListNode) : LinkedListNode :=
  mkNode v (prev_ nd) (list_sentinel_ nd).
Definition set_prev (v : Z) (nd : LinkedListNode) : LinkedListNode :=
  mkNode (next_ nd) v (list_sentinel_ nd).
Definition set_list_sentinel (v : Z) (nd : LinkedListNode) : LinkedListNode :=
  mkNode (next_ nd) (prev_ nd) v.

(** Reading through a pointer. *)
Definition load (h : heap) (p : Z) : result LinkedListNode :=
  match h !! p with
  | Some nd => Ok nd
  | None => Undefined
  end.

(** Writing one field through a pointer: [p->next_ = v] and so on. *)
Definition store_next (h : heap) (p v : Z) : result heap :=
  nd ← load h p; Ok (<[p := set_next v nd]> h).
Definition store_prev (h : heap) (p v : Z) : result heap :=
  nd ← load h p; Ok (<[p := set_prev v nd]> h).
Definition store_list_sentinel (h : heap) (p v : Z) : result heap :=
  nd ← load h p; Ok (<[p := set_list_sentinel v nd]> h).

(** The template parameter [Bridge]: the embedder stores the node
    [node_offset] bytes after its own address
    ([offsetof(Embedder, linked_list_node_)]). *)
Record Bridge : Type := mkBridge { node_offset : Z }.

(** [LinkedList]: [sentinel_] is the address of the embedded sentinel node,
    whose fields live in the heap. *)
Record LinkedList : Type := mkList {
  sentinel_ : Z;
  size_ : Z;
}.

(** [LinkedList::iterator]. *)
Record iterator : Type := mkIter { node_ : Z }.

Section Code.

(** [BERRYDB_CHECK_IS_ON()] *)
Variable check : bool.

(** [BERRYDB_CHECK] aborts the process when its condition is false. *)
Definition BERRYDB_CHECK (c : bool) : result unit :=
  if c then Ok () else Fatal.

(** Modelled from the spec: checks.h, which defines [BERRYDB_ASSUME], its
    [_EQ] and [_GT] variants and [DCHECK], is missing.  With validation
    enabled every precondition is checked and a violation is fatal; with
    validation disabled a violation is undefined behaviour. *)
Definition BERRYDB_ASSUME (c : bool) : result unit :=
  if c then Ok () else if check then Fatal else Undefined.

(** A block between [#if BERRYDB_CHECK_IS_ON()] and [#endif]. *)
Definition if_check_is_on {A} (m : result A) (skip : A) : result A :=
  if check then m else Ok skip.

(** *** LinkedListNode *)

(** [LinkedListNode()]: the fields are nulled with CHECKs enabled and keep
    the indeterminate contents [junk] of the storage otherwise. *)
Definition LinkedListNode_plain (h : heap) (this : Z) (junk : LinkedListNode)
  : heap :=
  <[this := if check then mkNode nullptr nullptr nullptr else junk]> h.

(** [LinkedListNode(SentinelNodeTag)] *)
Definition LinkedListNode_sentinel (h : heap) (this : Z) (junk : Z) : heap :=
  <[this := mkNode this this (if check then this else junk)]> h.

Definition is_sentinel (h : heap) (this : Z) : result bool :=
  nd ← load h this; Ok (this =? list_sentinel_ nd).

Definition next (h : heap) (this : Z) : result Z :=
  nd ← load h this;
  if_check_is_on (BERRYDB_CHECK (negb (list_sentinel_ nd =? nullptr))) ();;
  BERRYDB_ASSUME (negb (next_ nd =? nullptr));;
  nn ← load h (next_ nd);
  BERRYDB_ASSUME (prev_ nn =? this);;
  Ok (next_ nd).

Definition prev (h : heap) (this : Z) : result Z :=
  nd ← load h this;
  if_check_is_on (BERRYDB_CHECK (negb (list_sentinel_ nd =? nullptr))) ();;
  BERRYDB_ASSUME (negb (prev_ nd =? nullptr));;
  pn ← load h (prev_ nd);
  BERRYDB_ASSUME (next_ pn =? this);;
  Ok (prev_ nd).

Definition InsertBefore (h : heap) (this nxt : Z) : result heap :=
  (* DCHECK(next != nullptr); *)
  BERRYDB_ASSUME (negb (nxt =? nullptr));;
  h ← if_check_is_on
        (s ← is_sentinel h this;
         BERRYDB_CHECK (negb s);;
         nd ← load h this;
         BERRYDB_CHECK (list_sentinel_ nd =? nullptr);;
         BERRYDB_CHECK (next_ nd =? nullptr);;
         BERRYDB_CHECK (prev_ nd =? nullptr);;
         nx ← load h nxt;
         BERRYDB_CHECK (negb (list_sentinel_ nx =? nullptr));;
         store_list_sentinel h this (list_sentinel_ nx)) h;
  nx ← load h nxt;
  BERRYDB_ASSUME (negb (next_ nx =? nullptr));;
  BERRYDB_ASSUME (negb (prev_ nx =? nullptr));;
  (* this->prev_ = next->prev_; *)
  h ← store_prev h this (prev_ nx);
  (* this->prev_->next_ = this; *)
  nd ← load h this;
  h ← store_next h (prev_ nd) this;
  (* this->next_ = next; *)
  h ← store_next h this nxt;
  (* this->next_->prev_ = this; *)
  nd ← load h this;
  store_prev h (next_ nd) this.

Definition Remove (h : heap) (this : Z) : result heap :=
  h ← if_check_is_on
        (s ← is_sentinel h this;
         BERRYDB_CHECK (negb s);;
         nd ← load h this;
         BERRYDB_CHECK (negb (list_sentinel_ nd =? nullptr));;
         store_list_sentinel h this nullptr) h;
  nd ← load h this;
  BERRYDB_ASSUME (negb (next_ nd =? nullptr));;
  BERRYDB_ASSUME (negb (prev_ nd =? nullptr));;
  (* this->next_->prev_ = this->prev_; *)
  h ← store_prev h (next_ nd) (prev_ nd);
  (* this->prev_->next_ = this->next_; *)
  nd ← load h this;
  h ← store_next h (prev_ nd) (next_ nd);
  if_check_is_on
    (h ← store_next h this nullptr;
     store_prev h this nullptr) h.

(** The loop of the move constructor, present with CHECKs enabled:
    [for (node = next_; node != this; node = node->next_)]. *)
Fixpoint move_loop (fuel : nat) (h : heap) (this other_sentinel node : Z)
  : result heap :=
  if node =? this then Ok h
  else
    match fuel with
    | O => OutOfFuel
    | S fuel' =>
        s ← is_sentinel h node;
        BERRYDB_CHECK (negb s);;
        nd ← load h node;
        BERRYDB_CHECK (other_sentinel =? list_sentinel_ nd);;
        BERRYDB_CHECK (negb (next_ nd =? nullptr));;
        BERRYDB_CHECK (negb (prev_ nd =? nullptr));;
        h ← store_list_sentinel h node this;
        nd ← load h node;
        move_loop fuel' h this other_sentinel (next_ nd)
    end.

(** [LinkedListNode(LinkedListNode&& other_sentinel)], constructing the node
    at [this] in storage whose pointer fields hold [junk]. *)
Definition LinkedListNode_move (fuel : nat) (h : heap)
    (this other_sentinel : Z) (junk : Z) : result heap :=
  let h := <[this := mkNode junk junk (if check then this else junk)]> h in
  if_check_is_on (s ← is_sentinel h other_sentinel; BERRYDB_CHECK s) ();;
  n ← next h other_sentinel;
  if n =? other_sentinel then
    (* next_ = prev_ = this; *)
    h ← store_prev h this this;
    nd ← load h this;
    store_next h this (prev_ nd)
  else
    on ← load h other_sentinel;
    h ← store_next h this (next_ on);
    h ← store_next h other_sentinel other_sentinel;
    on ← load h other_sentinel;
    h ← store_prev h this (prev_ on);
    h ← store_prev h other_sentinel other_sentinel;
    nd ← load h this;
    h ← store_prev h (next_ nd) this;
    nd ← load h this;
    h ← store_next h (prev_ nd) this;
    if_check_is_on
      (nd ← load h this;
       move_loop fuel h this other_sentinel (next_ nd)) h.

(** *** LinkedListBridge *)

Definition NodeForHost (b : Bridge) (host : Z) : Z := host + node_offset b.

Definition HostForNode (b : Bridge) (h : heap) (node : Z) : result Z :=
  if_check_is_on (s ← is_sentinel h node; BERRYDB_CHECK (negb s)) ();;
  let host := node - node_offset b in
  BERRYDB_ASSUME (node =? NodeForHost b host);;
  Ok host.

(** *** LinkedList::iterator *)

Definition iterator_new (node : Z) : result iterator :=
  BERRYDB_ASSUME (negb (node =? nullptr));;
  Ok (mkIter node).

Definition iterator_eq (a b : iterator) : bool := node_ a =? node_ b.

Definition iterator_incr (h : heap) (it : iterator) : result iterator :=
  if_check_is_on (s ← is_sentinel h (node_ it); BERRYDB_CHECK (negb s)) ();;
  n ← next h (node_ it);
  Ok (mkIter n).

Definition iterator_decr (h : heap) (it : iterator) : result iterator :=
  if_check_is_on
    (p ← prev h (node_ it);
     s ← is_sentinel h p;
     BERRYDB_CHECK (negb s)) ();;
  p ← prev h (node_ it);
  Ok (mkIter p).

Definition iterator_deref (b : Bridge) (h : heap) (it : iterator) : result Z :=
  HostForNode b h (node_ it).

(** *** LinkedList *)

Definition LinkedList_new (h : heap) (this : Z) (junk : Z)
  : heap * LinkedList :=
  (LinkedListNode_sentinel h this junk, mkList this 0).

(** [LinkedList(LinkedList&& other)]: returns the heap, the new list and the
    moved-from list. *)
Definition LinkedList_move (fuel : nat) (h : heap) (this : Z)
    (other : LinkedList) (junk : Z)
  : result (heap * LinkedList * LinkedList) :=
  h ← LinkedListNode_move fuel h this (sentinel_ other) junk;
  Ok (h, mkList this (size_ other), mkList (sentinel_ other) 0).

Definition empty (h : heap) (L : LinkedList) : result bool :=
  n ← next h (sentinel_ L); Ok (n =? sentinel_ L).

Definition size (L : LinkedList) : Z := size_ L.

Definition begin (h : heap) (L : LinkedList) : result iterator :=
  n ← next h (sentinel_ L); iterator_new n.

Definition end_ (L : LinkedList) : result iterator :=
  iterator_new (sentinel_ L).

Definition front (b : Bridge) (h : heap) (L : LinkedList) : result Z :=
  it ← begin h L; iterator_deref b h it.

Definition back (b : Bridge) (h : heap) (L : LinkedList) : result Z :=
  e ← end_ L; it ← iterator_decr h e; iterator_deref b h it.

Definition insert (b : Bridge) (h : heap) (L : LinkedList) (pos : iterator)
    (value : Z) : result (heap * LinkedList) :=
  BERRYDB_ASSUME (negb (value =? nullptr));;
  let node := NodeForHost b value in
  BERRYDB_ASSUME (negb (node =? nullptr));;
  host ← HostForNode b h node;
  BERRYDB_ASSUME (value =? host);;
  h ← InsertBefore h node (node_ pos);
  Ok (h, mkList (sentinel_ L) ((size_ L + 1) mod size_modulus)).

(** [erase(iterator pos)] *)
Definition erase_pos (h : heap) (L : LinkedList) (pos : iterator)
  : result (heap * LinkedList) :=
  let node := node_ pos in
  BERRYDB_ASSUME (negb (node =? nullptr));;
  if_check_is_on
    (s ← is_sentinel h node;
     BERRYDB_CHECK (negb s);;
     nd ← load h node;
     BERRYDB_CHECK (sentinel_ L =? list_sentinel_ nd)) ();;
  h ← Remove h node;
  BERRYDB_ASSUME (0 <? size_ L);;
  Ok (h, mkList (sentinel_ L) ((size_ L - 1) mod size_modulus)).

(** [erase(value_type value)] *)
Definition erase (b : Bridge) (h : heap) (L : LinkedList) (value : Z)
  : result (heap * LinkedList) :=
  let node := NodeForHost b value in
  if_check_is_on
    (s ← is_sentinel h node;
     BERRYDB_CHECK (negb s);;
     nd ← load h node;
     BERRYDB_CHECK (sentinel_ L =? list_sentinel_ nd)) ();;
  h ← Remove h node;
  BERRYDB_ASSUME (0 <? size_ L);;
  Ok (h, mkList (sentinel_ L) ((size_ L - 1) mod size_modulus)).

Definition push_front (b : Bridge) (h : heap) (L : LinkedList) (value : Z)
  : result (heap * LinkedList) :=
  pos ← begin h L; insert b h L pos value.

Definition push_back (b : Bridge) (h : heap) (L : LinkedList) (value : Z)
  : result (heap * LinkedList) :=
  pos ← end_ L; insert b h L pos value.

Definition pop_front (h : heap) (L : LinkedList)
  : result (heap * LinkedList) :=
  pos ← begin h L; erase_pos h L pos.

Definition pop_back (h : heap) (L : LinkedList)
  : result (heap * LinkedList) :=
  e ← end_ L; pos ← iterator_decr h e; erase_pos h L pos.

(** *** Traversals written with the public iterator interface *)

(** [for (; it != last; ++it)], collecting the dereferenced iterator. *)
Fixpoint forward_loop (fuel : nat) (b : Bridge) (h : heap)
    (it last : iterator) : result (list Z) :=
  if iterator_eq it last then Ok []
  else
    match fuel with
    | O => OutOfFuel
    | S fuel' =>
        v ← iterator_deref b h it;
        it' ← iterator_incr h it;
        vs ← forward_loop fuel' b h it' last;
        Ok (v :: vs)
    end.

(** The values seen from [begin()] to [end()]. *)
Definition forward (fuel : nat) (b : Bridge) (h : heap) (L : LinkedList)
  : result (list Z) :=
  it ← begin h L; e ← end_ L; forward_loop fuel b h it e.

(** [while (it != first) { --it; ... }], collecting the dereferenced
    iterator after each decrement. *)
Fixpoint backward_loop (fuel : nat) (b : Bridge) (h : heap)
    (it first : iterator) : result (list Z) :=
  if iterator_eq it first then Ok []
  else
    match fuel with
    | O => OutOfFuel
    | S fuel' =>
        it' ← iterator_decr h it;
        v ← iterator_deref b h it';
        vs ← backward_loop fuel' b h it' first;
        Ok (v :: vs)
    end.

(** The values seen from the last position back to [begin()]. *)
Definition backward (fuel : nat) (b : Bridge) (h : heap) (L : LinkedList)
  : result (list Z) :=
  e ← end_ L; bg ← begin h L; backward_loop fuel b h e bg.

End Code.

(** ** Reading single fields of a heap cell *)

Definition get_next (h : heap) (a : Z) : option Z := next_ <$> h !! a.
Definition get_prev (h : heap) (a : Z) : option Z := prev_ <$> h !! a.
Definition get_list_sentinel (h : heap) (a : Z) : option Z :=
  list_sentinel_ <$> h !! a.

(** ** Well-formed lists *)

(** [a] is immediately followed by [b]. *)
Definition link (h : heap) (a b : Z) : Prop :=
  get_next h a = Some b ∧ get_prev h b = Some a.

(** The nodes [l] are linked in this order between [a] and [z]. *)
Fixpoint chain (h : heap) (a : Z) (l : list Z) (z : Z) : Prop :=
  match l with
  | [] => link h a z
  | b :: l' => link h a b ∧ chain h b l' z
  end.

Definition in_range (a : Z) : Prop := 0 < a < size_modulus.

#[global] Instance in_range_dec (a : Z) : Decision (in_range a).
Proof. unfold in_range. apply _. Defined.

(** The list whose sentinel lives at [s] holds exactly the nodes [l], in this
    order: the chain is circular through the sentinel, no node occurs twice,
    and with CHECKs enabled every node of the chain refers back to [s]. *)
Definition is_list (check : bool) (h : heap) (s : Z) (l : list Z) : Prop :=
  chain h s l s ∧ NoDup (s :: l) ∧ Forall in_range (s :: l) ∧
  (check = true → Forall (λ a, get_list_sentinel h a = Some s) (s :: l)).

(** A node that is in no list: allocated, and with CHECKs enabled its three
    fields are null. *)
Definition detached (check : bool) (h : heap) (n : Z) : Prop :=
  ∃ nd, h !! n = Some nd ∧
        (check = true → nd = mkNode nullptr nullptr nullptr).


(** ** Sequences of list operations *)

Inductive op : Type :=
| PushBack (value : Z)
| PushFront (value : Z)
| Erase (value : Z)
| ErasePos (pos : iterator).

Definition step (check : bool) (b : Bridge) (st : heap * LinkedList) (o : op)
  : result (heap * LinkedList) :=
  match o with
  | PushBack v => push_back check b st.1 st.2 v
  | PushFront v => push_front check b st.1 st.2 v
  | Erase v => erase check b st.1 st.2 v
  | ErasePos pos => erase_pos check st.1 st.2 pos
  end.

Fixpoint run (check : bool) (b : Bridge) (ops : list op)
    (st : heap * LinkedList) : result (heap * LinkedList) :=
  match ops with
  | [] => Ok st
  | o :: ops' => st' ← step check b st o; run check b ops' st'
  end.

(** The nodes of the list after an operation, given the nodes before. *)
Definition abs_step (b : Bridge) (l : list Z) (o : op) : list Z :=
  match o with
  | PushBack v => l ++ [NodeForHost b v]
  | PushFront v => NodeForHost b v :: l
  | Erase v => filter (λ x, x ≠ NodeForHost b v) l
  | ErasePos pos => filter (λ x, x ≠ node_ pos) l
  end.

(** The documented preconditions: an inserted node is in no list, an erased
    node is in the list. *)
Definition valid_op (b : Bridge) (s : Z) (l : list Z) (o : op) : Prop :=
  match o with
  | PushBack v | PushFront v => NodeForHost b v ∉ s :: l
  | Erase v => NodeForHost b v ∈ l
  | ErasePos pos => node_ pos ∈ l
  end.

Fixpoint valid_ops (b : Bridge) (s : Z) (l : list Z) (ops : list op) : Prop :=
  match ops with
  | [] => True
  | o :: ops' => valid_op b s l o ∧ valid_ops b s (abs_step b l o) ops'
  end.

(** A sequence that can run to its end: it respects the preconditions, its
    values are not null and their nodes are allocated in [h0]. *)
Definition runnable_op (b : Bridge) (h0 : heap) (s : Z) (l : list Z) (o : op)
  : Prop :=
  match o with
  | PushBack v | PushFront v =>
      v ≠ nullptr ∧ is_Some (h0 !! NodeForHost b v) ∧
      NodeForHost b v ∉ s :: l
  | Erase v => NodeForHost b v ∈ l
  | ErasePos pos => node_ pos ∈ l
  end.

Fixpoint runnable_ops (b : Bridge) (h0 : heap) (s : Z) (l : list Z)
    (ops : list op) : Prop :=
  match ops with
  | [] => True
  | o :: ops' =>
      runnable_op b h0 s l o ∧ runnable_ops b h0 s (abs_step b l o) ops'
  end.

(** The memory in which a list is created: every node is an embedder's node
    built by [LinkedListNode()] at a 64-bit address. *)
Definition fresh_heap (check : bool) (h : heap) : Prop :=
  map_Forall (λ a nd, in_range a ∧
                      (check = true → nd = mkNode nullptr nullptr nullptr)) h.

(** The state of a program that uses one list: the list is well formed, its
    [size_] counts its nodes, every allocated address is a 64-bit address and,
    with CHECKs enabled, every node outside the list is null. *)
Definition list_inv (check : bool) (h : heap) (L : LinkedList) (l : list Z)
  : Prop :=
  is_list check h (sentinel_ L) l ∧ size_ L = Z.of_nat (length l) ∧
  map_Forall (λ a nd, in_range a ∧
                      (check = true → a ∉ sentinel_ L :: l →
                       nd = mkNode nullptr nullptr nullptr)) h.

(** ** A concrete program state

    Three embedders at 100, 200 and 300 keep their node 8 bytes after their
    own address; the list lives at 1000.  CHECKs are enabled. *)

Definition ex_bridge : Bridge := mkBridge 8.

Definition ex_heap : heap :=
  LinkedListNode_plain true
    (LinkedListNode_plain true
       (LinkedListNode_plain true ∅ 308 (mkNode 0 0 0)) 208 (mkNode 0 0 0))
    108 (mkNode 0 0 0).

Definition ex_empty : heap * LinkedList := LinkedList_new true ex_heap 1000 0.

(** The state reached from the empty list by a sequence of operations. *)
Definition ex_state (ops : list op) : heap * LinkedList :=
  match run true ex_bridge ops ex_empty with
  | Ok st => st
  | _ => ex_empty
  end.

Definition ex_abc : heap * LinkedList :=
  ex_state [PushBack 100; PushBack 200; PushBack 300].

(** A second node field, 32 bytes into the embedder, and a second list at
    3000 that links the embedders through it.  Hosts 100 and 200 are in the
    second list, host 200 is in the first. *)

Definition ex_bridge2 : Bridge := mkBridge 32.

Definition ex_heap2 : heap :=
  LinkedListNode_plain true
    (LinkedListNode_plain true
       (LinkedListNode_plain true ex_heap 332 (mkNode 0 0 0))
       232 (mkNode 0 0 0))
    132 (mkNode 0 0 0).

Definition ex_two_lists : heap * LinkedList * LinkedList :=
  let '(h, La) := LinkedList_new true ex_heap2 1000 0 in
  let '(h, Lb) := LinkedList_new true h 3000 0 in
  match
    '(h, Lb) ← push_back true ex_bridge2 h Lb 100;
    '(h, Lb) ← push_back true ex_bridge2 h Lb 200;
    '(h, La) ← push_back true ex_bridge h La 200;
    Ok (h, La, Lb)
  with
  | Ok st => st
  | _ => (h, La, Lb)
  end.

(** The same three embedders in a build without CHECKs: the nodes keep what
    their storage held. *)
Definition ex_heap_unchecked : heap :=
  LinkedListNode_plain false
    (LinkedListNode_plain false
       (LinkedListNode_plain false ∅ 308 (mkNode 7 108 0)) 208 (mkNode 0 9 0))
    108 (mkNode 308 308 0).

Definition ex_state_unchecked (ops : list op) : heap * LinkedList :=
  match
    run false ex_bridge ops (LinkedList_new false ex_heap_unchecked 1000 0)
  with
  | Ok st => st
  | _ => LinkedList_new false ex_heap_unchecked 1000 0
  end.

(** ** The remaining members of the header *)

(** [LinkedListNode::list_sentinel()], present with CHECKs enabled. *)
Definition list_sentinel (h : heap) (this : Z) : result Z :=
  nd ← load h this; Ok (list_sentinel_ nd).

(** [iterator::operator!=] *)
Definition iterator_ne (a b : iterator) : bool := negb (node_ a =? node_ b).

(** [iterator::operator++(int)]: the value of the expression, built by the
    private constructor, and the iterator afterwards. *)
Definition iterator_post_incr (check : bool) (h : heap) (it : iterator)
  : result (iterator * iterator) :=
  if_check_is_on check
    (s ← is_sentinel h (node_ it); BERRYDB_CHECK (negb s)) ();;
  let old_node := node_ it in
  n ← next check h (node_ it);
  old ← iterator_new check old_node;
  Ok (old, mkIter n).

(** [iterator::operator--(int)] *)
Definition iterator_post_decr (check : bool) (h : heap) (it : iterator)
  : result (iterator * iterator) :=
  if_check_is_on check
    (p ← prev check h (node_ it);
     s ← is_sentinel h p;
     BERRYDB_CHECK (negb s)) ();;
  let old_node := node_ it in
  p ← prev check h (node_ it);
  old ← iterator_new check old_node;
  Ok (old, mkIter p).

(** The nodes of the list after a sequence of operations on the empty
    list. *)
Definition abs_run (b : Bridge) (ops : list op) : list Z :=
  fold_left (abs_step b) ops [].

(** The host that embeds a node, as plain address arithmetic. *)
Definition host_of (b : Bridge) (node : Z) : Z := node - node_offset b.

(** * Proofs *)

#[local] Set Warnings "-clear-no-such-hyp".


(** ** Symbolic execution of heap accesses *)

Lemma load_Some (h : heap) (p : Z) (nd : LinkedListNode) :
  h !! p = Some nd → load h p = Ok nd.
Proof. unfold load. by intros ->. Qed.

Lemma store_next_Some (h : heap) (p v : Z) (nd : LinkedListNode) :
  h !! p = Some nd → store_next h p v = Ok (<[p := set_next v nd]> h).
Proof. unfold store_next. by intros ->%load_Some. Qed.

Lemma store_prev_Some (h : heap) (p v : Z) (nd : LinkedListNode) :
  h !! p = Some nd → store_prev h p v = Ok (<[p := set_prev v nd]> h).
Proof. unfold store_prev. by intros ->%load_Some. Qed.

Lemma store_list_sentinel_Some (h : heap) (p v : Z) (nd : LinkedListNode) :
  h !! p = Some nd →
  store_list_sentinel h p v = Ok (<[p := set_list_sentinel v nd]> h).
Proof. unfold store_list_sentinel. by intros ->%load_Some. Qed.

Lemma is_sentinel_Some (h : heap) (p : Z) (nd : LinkedListNode) :
  h !! p = Some nd → is_sentinel h p = Ok (p =? list_sentinel_ nd).
Proof. unfold is_sentinel. by intros ->%load_Some. Qed.

Lemma lookup_insert_eq' (h : heap) (i j : Z) (x : LinkedListNode) :
  i = j → <[i := x]> h !! j = Some x.
Proof. intros ->. apply lookup_insert_eq. Qed.

Ltac lookup_tac :=
  repeat first
    [ rewrite lookup_insert_eq
    | rewrite lookup_insert_eq' by (simpl; congruence)
    | rewrite lookup_insert_ne by (simpl; congruence) ];
  first [ eassumption | reflexivity ].

Ltac arith_tac :=
  simpl in *; first [ congruence | unfold NodeForHost, nullptr in *; lia ].

Ltac eqb_tac :=
  match goal with
  | |- context [?a =? ?b] =>
      first [ rewrite (Z.eqb_refl a)
            | rewrite (proj2 (Z.eqb_eq a b)) by arith_tac
            | rewrite (proj2 (Z.eqb_neq a b)) by arith_tac ]
  | |- context [?a <? ?b] =>
      first [ rewrite (proj2 (Z.ltb_lt a b)) by arith_tac
            | rewrite (proj2 (Z.ltb_ge a b)) by arith_tac ]
  end.

Ltac exec_step :=
  first
    [ match goal with
      | |- context [load ?h ?p] => erewrite (load_Some h p) by lookup_tac
      | |- context [is_sentinel ?h ?p] =>
          erewrite (is_sentinel_Some h p) by lookup_tac
      | |- context [store_next ?h ?p ?v] =>
          erewrite (store_next_Some h p v) by lookup_tac
      | |- context [store_prev ?h ?p ?v] =>
          erewrite (store_prev_Some h p v) by lookup_tac
      | |- context [store_list_sentinel ?h ?p ?v] =>
          erewrite (store_list_sentinel_Some h p v) by lookup_tac
      end
    | eqb_tac ];
  simpl.

Ltac exec := simpl; repeat exec_step.

Ltac getters :=
  intros; unfold get_next, get_prev, get_list_sentinel;
  rewrite ?lookup_insert; repeat case_decide; simplify_eq; simpl;
  repeat match goal with H : _ !! _ = Some _ |- _ => rewrite H end;
  try done.

Lemma get_next_Some (h : heap) (a b : Z) :
  get_next h a = Some b ↔ ∃ nd, h !! a = Some nd ∧ next_ nd = b.
Proof. unfold get_next. rewrite fmap_Some. split; intros (nd & ? & ?); eauto. Qed.

Lemma get_prev_Some (h : heap) (a b : Z) :
  get_prev h a = Some b ↔ ∃ nd, h !! a = Some nd ∧ prev_ nd = b.
Proof. unfold get_prev. rewrite fmap_Some. split; intros (nd & ? & ?); eauto. Qed.

Lemma get_list_sentinel_Some (h : heap) (a b : Z) :
  get_list_sentinel h a = Some b ↔
  ∃ nd, h !! a = Some nd ∧ list_sentinel_ nd = b.
Proof. unfold get_list_sentinel. rewrite fmap_Some. split; intros (nd & ? & ?); eauto. Qed.

(** A cell is determined by its three fields. *)
Lemma heap_cell_ext (h h' : heap) (x : Z) :
  get_next h' x = get_next h x → get_prev h' x = get_prev h x →
  get_list_sentinel h' x = get_list_sentinel h x → h' !! x = h !! x.
Proof.
  unfold get_next, get_prev, get_list_sentinel.
  destruct (h' !! x) as [[]|], (h !! x) as [[]|]; simpl; congruence.
Qed.

Section NodeProofs.

Variable check : bool.

(** *** next() and prev() *)

Lemma next_ok (h : heap) (a b : Z) :
  link h a b → b ≠ 0 →
  (check = true → ∃ ls, get_list_sentinel h a = Some ls ∧ ls ≠ 0) →
  next check h a = Ok b.
Proof.
  intros [([nx pv ls] & Ha & ?)%get_next_Some
          ([nx' pv' ls'] & Hb & ?)%get_prev_Some] Hb0 Hck.
  simpl in *; subst.
  unfold next, BERRYDB_ASSUME, if_check_is_on, BERRYDB_CHECK, nullptr.
  destruct check.
  - destruct Hck as (ls0 & (? & ? & ?)%get_list_sentinel_Some & ?); [done|].
    simplify_eq; simpl in *. by exec.
  - by exec.
Qed.

Lemma prev_ok (h : heap) (a b : Z) :
  link h a b → a ≠ 0 →
  (check = true → ∃ ls, get_list_sentinel h b = Some ls ∧ ls ≠ 0) →
  prev check h b = Ok a.
Proof.
  intros [([nx pv ls] & Ha & ?)%get_next_Some
          ([nx' pv' ls'] & Hb & ?)%get_prev_Some] Ha0 Hck.
  simpl in *; subst.
  unfold prev, BERRYDB_ASSUME, if_check_is_on, BERRYDB_CHECK, nullptr.
  destruct check.
  - destruct Hck as (ls0 & (? & ? & ?)%get_list_sentinel_Some & ?); [done|].
    simplify_eq; simpl in *. by exec.
  - by exec.
Qed.

(** *** InsertBefore *)

Lemma InsertBefore_ok (h : heap) (n pos : Z) (nd npos np : LinkedListNode) :
  h !! n = Some nd → h !! pos = Some npos → h !! (prev_ npos) = Some np →
  n ≠ pos → n ≠ prev_ npos → pos ≠ 0 → next_ npos ≠ 0 → prev_ npos ≠ 0 →
  (check = true → nd = mkNode 0 0 0 ∧ n ≠ 0 ∧ list_sentinel_ npos ≠ 0) →
  ∃ h', InsertBefore check h n pos = Ok h' ∧
    (∀ x, get_next h' x =
          if decide (x = n) then Some pos
          else if decide (x = prev_ npos) then Some n else get_next h x) ∧
    (∀ x, get_prev h' x =
          if decide (x = n) then Some (prev_ npos)
          else if decide (x = pos) then Some n else get_prev h x) ∧
    (∀ x, get_list_sentinel h' x =
          if decide (x = n) then
            Some (if check then list_sentinel_ npos else list_sentinel_ nd)
          else get_list_sentinel h x).
Proof.
  intros Hn Hpos Hp Hnpos Hnp Hpos0 Hnx0 Hpv0 Hck.
  unfold InsertBefore, BERRYDB_ASSUME, if_check_is_on, BERRYDB_CHECK, nullptr.
  destruct check.
  - destruct Hck as (-> & Hn0 & Hls); [done|].
    destruct (decide (prev_ npos = pos)); exec;
      (eexists; split; [done|]); split_and!; getters.
  - clear Hck.
    destruct (decide (prev_ npos = pos)); exec;
      (eexists; split; [done|]); split_and!; getters.
Qed.

(** *** Remove *)

Lemma Remove_ok (h : heap) (n : Z) (nd nnx npv : LinkedListNode) :
  h !! n = Some nd → h !! (next_ nd) = Some nnx → h !! (prev_ nd) = Some npv →
  n ≠ next_ nd → n ≠ prev_ nd → next_ nd ≠ 0 → prev_ nd ≠ 0 →
  (check = true → n ≠ list_sentinel_ nd ∧ list_sentinel_ nd ≠ 0) →
  ∃ h', Remove check h n = Ok h' ∧
    (∀ x, get_next h' x =
          if decide (x = n) then Some (if check then 0 else next_ nd)
          else if decide (x = prev_ nd) then Some (next_ nd)
          else get_next h x) ∧
    (∀ x, get_prev h' x =
          if decide (x = n) then Some (if check then 0 else prev_ nd)
          else if decide (x = next_ nd) then Some (prev_ nd)
          else get_prev h x) ∧
    (∀ x, get_list_sentinel h' x =
          if decide (x = n) then
            Some (if check then 0 else list_sentinel_ nd)
          else get_list_sentinel h x).
Proof.
  intros Hn Hnx Hpv Hnnx Hnpv Hnx0 Hpv0 Hck.
  unfold Remove, BERRYDB_ASSUME, if_check_is_on, BERRYDB_CHECK, nullptr.
  destruct nd as [nx pv ls]; simpl in *.
  destruct check.
  - destruct Hck as (Hs & Hls); [done|].
    destruct (decide (nx = pv)); exec;
      (eexists; split; [done|]); split_and!; getters.
  - clear Hck.
    destruct (decide (nx = pv)); exec;
      (eexists; split; [done|]); split_and!; getters.
Qed.

End NodeProofs.

(** ** Chains of links *)

Section ChainProofs.

Implicit Types (h : heap) (l : list Z).

Lemma last_cons_default (a b : Z) l :
  default a (last (b :: l)) = default b (last l).
Proof. rewrite last_cons. by destruct (last l). Qed.

Lemma default_last_elem (a : Z) l : default a (last l) ∈ a :: l.
Proof.
  revert a. induction l as [|b l IH]; intros a; [simpl; set_solver|].
  rewrite last_cons_default. specialize (IH b). set_solver.
Qed.

Lemma default_head_elem (z : Z) l : default z (head l) ∈ l ++ [z].
Proof. destruct l; simpl; set_solver. Qed.

Lemma chain_first_link h a l z : chain h a l z → link h a (default z (head l)).
Proof. destruct l; simpl; tauto. Qed.

Lemma chain_last_link h a l z : chain h a l z → link h (default a (last l)) z.
Proof.
  revert a. induction l as [|b l IH]; intros a; [done|].
  rewrite last_cons_default. simpl. intros [_ Hc]. by apply IH.
Qed.

(** Splitting a chain; the link that joins the two halves belongs to both. *)
Lemma chain_app h a l1 l2 z :
  chain h a (l1 ++ l2) z ↔
  chain h a l1 (default z (head l2)) ∧ chain h (default a (last l1)) l2 z.
Proof.
  revert a. induction l1 as [|b l1 IH]; intros a.
  - simpl. split; [|tauto]. intros Hc. split; [|done].
    by apply chain_first_link.
  - rewrite last_cons_default. simpl. rewrite IH. tauto.
Qed.

(** A chain only depends on the [next_] of its sources and the [prev_] of
    its targets. *)
Lemma chain_frame h h' a l z :
  chain h a l z →
  (∀ x, x ∈ a :: l → get_next h' x = get_next h x) →
  (∀ x, x ∈ l ++ [z] → get_prev h' x = get_prev h x) →
  chain h' a l z.
Proof.
  revert a. induction l as [|b l IH]; intros a; simpl.
  - intros [Hn Hp] Hnx Hpv. split.
    + rewrite Hnx; [done|set_solver].
    + rewrite Hpv; [done|set_solver].
  - intros [[Hn Hp] Hc] Hnx Hpv. split; [split|].
    + rewrite Hnx; [done|set_solver].
    + rewrite Hpv; [done|set_solver].
    + apply IH; [done| |]; intros x Hx; [apply Hnx|apply Hpv]; set_solver.
Qed.

(** Redirecting the last link of a chain to a new target. *)
Lemma chain_retarget h h' a l z z' :
  chain h a l z → NoDup (a :: l) →
  (∀ x, x ∈ a :: l → x ≠ default a (last l) →
        get_next h' x = get_next h x) →
  (∀ x, x ∈ l → get_prev h' x = get_prev h x) →
  link h' (default a (last l)) z' →
  chain h' a l z'.
Proof.
  revert a. induction l as [|b l IH]; intros a; [done|].
  rewrite last_cons_default. simpl.
  intros [[Hn Hp] Hc] Hnd Hnx Hpv Hl.
  apply NoDup_cons in Hnd as [Ha Hnd].
  split; [split|].
  - rewrite Hnx; [done|set_solver|].
    intros ->. apply Ha, default_last_elem.
  - rewrite Hpv; [done|set_solver].
  - apply IH; [done|done| | |done].
    + intros x Hx Hne. apply Hnx; [set_solver|done].
    + intros x Hx. apply Hpv. set_solver.
Qed.

(** Starting a chain from a new source. *)
Lemma chain_resource h h' a a' l z :
  chain h a l z →
  (∀ x, x ∈ l → get_next h' x = get_next h x) →
  (∀ x, x ∈ l ++ [z] → x ≠ default z (head l) →
        get_prev h' x = get_prev h x) →
  NoDup (l ++ [z]) →
  link h' a' (default z (head l)) →
  chain h' a' l z.
Proof.
  destruct l as [|b l]; simpl; [done|].
  intros [_ Hc] Hnx Hpv Hnd Hl. split; [done|].
  apply NoDup_cons in Hnd as [Hb Hnd].
  apply (chain_frame h); [done| |].
  - intros x Hx. by apply Hnx.
  - intros x Hx. apply Hpv; [set_solver|]. intros ->. done.
Qed.

End ChainProofs.

(** ** The list invariant under insertion and removal *)

Section ListInvariant.

Variable check : bool.
Implicit Types (h : heap) (l : list Z).

Lemma NoDup_split (s : Z) l1 l2 :
  NoDup (s :: l1 ++ l2) →
  NoDup (s :: l1) ∧ NoDup (l2 ++ [s]) ∧
  (∀ x, x ∈ s :: l1 → x ∉ l2) ∧ (∀ x, x ∈ l1 → x ∉ l2 ++ [s]).
Proof.
  rewrite !NoDup_cons, !NoDup_app.
  intros (Hs & Hl1 & Hd & Hl2).
  split_and!; try done; try apply NoDup_singleton; set_solver.
Qed.

Lemma is_list_range h s l x : is_list check h s l → x ∈ s :: l → in_range x.
Proof. intros (_ & _ & Hr & _) Hx. by eapply Forall_forall in Hr. Qed.

Lemma is_list_owner h s l x :
  is_list check h s l → check = true → x ∈ s :: l →
  get_list_sentinel h x = Some s.
Proof.
  intros (_ & _ & _ & Hls) Hck Hx. specialize (Hls Hck).
  by eapply Forall_forall in Hls.
Qed.

Lemma is_list_insert h h' s l1 l2 n ls :
  is_list check h s (l1 ++ l2) →
  n ∉ s :: l1 ++ l2 → in_range n →
  (∀ x, get_next h' x =
        if decide (x = n) then Some (default s (head l2))
        else if decide (x = default s (last l1)) then Some n
        else get_next h x) →
  (∀ x, get_prev h' x =
        if decide (x = n) then Some (default s (last l1))
        else if decide (x = default s (head l2)) then Some n
        else get_prev h x) →
  (∀ x, get_list_sentinel h' x =
        if decide (x = n) then Some (if check then s else ls)
        else get_list_sentinel h x) →
  is_list check h' s (l1 ++ n :: l2).
Proof.
  intros (Hc & Hnd & Hr & Hls) Hn Hrn Hnx Hpv Hsn.
  apply chain_app in Hc as [Hc1 Hc2].
  destruct (NoDup_split _ _ _ Hnd) as (Hnd1 & Hnd2 & Hd1 & Hd2).
  pose proof (default_last_elem s l1) as Hp.
  pose proof (default_head_elem s l2) as Hpos.
  assert (Hl : link h' (default s (last l1)) n).
  { split; [rewrite Hnx|rewrite Hpv]; repeat case_decide; try done.
    subst n. set_solver. }
  assert (Hl' : link h' n (default s (head l2))).
  { split; [rewrite Hnx|rewrite Hpv]; repeat case_decide; try done.
    subst n. set_solver. }
  split_and!.
  - apply chain_app. simpl. split; [|split; [done|]].
    + apply (chain_retarget h h' s l1 (default s (head l2))); try done.
      * intros x Hx Hne. rewrite Hnx. repeat case_decide; try done.
        subst x. set_solver.
      * intros x Hx. rewrite Hpv. repeat case_decide; try done.
        -- subst x. set_solver.
        -- subst x. by apply Hd2 in Hx.
    + apply (chain_resource h h' (default s (last l1))); try done.
      * intros x Hx. rewrite Hnx. repeat case_decide; try done.
        -- subst x. set_solver.
        -- subst x. by apply Hd1 in Hp.
      * intros x Hx Hne. rewrite Hpv. repeat case_decide; try done.
        subst x. set_solver.
  - rewrite app_comm_cons, <- Permutation_middle.
    apply NoDup_cons. split; [set_solver|done].
  - rewrite app_comm_cons, <- Permutation_middle. by apply Forall_cons.
  - intros Hck. specialize (Hls Hck).
    rewrite app_comm_cons, <- Permutation_middle.
    apply Forall_cons. split.
    + rewrite Hsn, decide_True by done. by rewrite Hck.
    + eapply Forall_impl; [exact Hls|]. simpl. intros x Hx.
      rewrite Hsn. case_decide; [|done]. 
by rewrite Hck.
Qed.

Lemma is_list_remove h h' s l1 l2 n nx0 pv0 ls0 :
  is_list check h s (l1 ++ n :: l2) →
  (∀ x, get_next h' x =
        if decide (x = n) then Some nx0
        else if decide (x = default s (last l1))
             then Some (default s (head l2))
        else get_next h x) →
  (∀ x, get_prev h' x =
        if decide (x = n) then Some pv0
        else if decide (x = default s (head l2))
             then Some (default s (last l1))
        else get_prev h x) →
  (∀ x, get_list_sentinel h' x =
        if decide (x = n) then Some ls0 else get_list_sentinel h x) →
  is_list check h' s (l1 ++ l2).
Proof.
  intros (Hc & Hnd & Hr & Hls) Hnx Hpv Hsn.
  apply chain_app in Hc as [Hc1 [_ Hc2]]. simpl in Hc1.
  rewrite app_comm_cons, <- Permutation_middle in Hnd, Hr.
  apply NoDup_cons in Hnd as [Hn Hnd].
  apply Forall_cons in Hr as [_ Hr].
  destruct (NoDup_split _ _ _ Hnd) as (Hnd1 & Hnd2 & Hd1 & Hd2).
  pose proof (default_last_elem s l1) as Hp.
  pose proof (default_head_elem s l2) as Hpos.
  assert (Hl : link h' (default s (last l1)) (default s (head l2))).
  { split; [rewrite Hnx|rewrite Hpv]; repeat case_decide; try done.
    - exfalso. apply Hn. set_solver.
    - exfalso. apply Hn. set_solver. }
  split_and!; [|done|done|].
  - apply chain_app. split.
    + apply (chain_retarget h h' s l1 n); try done.
      * intros x Hx Hne. rewrite Hnx. repeat case_decide; try done.
        subst x. set_solver.
      * intros x Hx. rewrite Hpv. repeat case_decide; try done.
        -- subst x. set_solver.
        -- subst x. by apply Hd2 in Hx.
    + apply (chain_resource h h' n); try done.
      * intros x Hx. rewrite Hnx. repeat case_decide; try done.
        -- subst x. set_solver.
        -- subst x. by apply Hd1 in Hp.
      * intros x Hx Hne. rewrite Hpv. repeat case_decide; try done.
        subst x. set_solver.
  - intros Hck. specialize (Hls Hck).
    rewrite app_comm_cons, <- Permutation_middle in Hls.
    apply Forall_cons in Hls as [_ Hls].
    apply Forall_forall. intros x Hx. rewrite Hsn.
    case_decide; [by subst x|]. by eapply Forall_forall in Hls.
Qed.

(** Every node of a list is allocated and its neighbours are in the list. *)
Lemma chain_next h a l z x :
  chain h a l z → x ∈ a :: l → ∃ y, get_next h x = Some y ∧ y ∈ l ++ [z].
Proof.
  revert a. induction l as [|b l IH]; simpl; intros a.
  - intros [Hn _] ->%list_elem_of_singleton. exists z. set_solver.
  - intros [[Hn _] Hc] [->|Hx]%elem_of_cons.
    + exists b. set_solver.
    + destruct (IH _ Hc Hx) as (y & ? & ?). exists y. set_solver.
Qed.

Lemma chain_prev h a l z x :
  chain h a l z → x ∈ l ++ [z] → ∃ y, get_prev h x = Some y ∧ y ∈ a :: l.
Proof.
  revert a. induction l as [|b l IH]; simpl; intros a.
  - intros [_ Hp] ->%list_elem_of_singleton. exists a. set_solver.
  - intros [[_ Hp] Hc] [->|Hx]%elem_of_cons.
    + exists a. set_solver.
    + destruct (IH _ Hc Hx) as (y & ? & ?). exists y. set_solver.
Qed.

Lemma is_list_node h s l x :
  is_list check h s l → x ∈ s :: l →
  ∃ nd, h !! x = Some nd ∧ next_ nd ∈ s :: l ∧ prev_ nd ∈ s :: l ∧
        (check = true → list_sentinel_ nd = s).
Proof.
  intros His Hx. pose proof His as (Hc & _ & _ & _).
  destruct (chain_next _ _ _ _ _ Hc Hx) as (y & (nd & Hnd & <-)%get_next_Some & Hy).
  assert (Hx' : x ∈ l ++ [s]) by set_solver.
  destruct (chain_prev _ _ _ _ _ Hc Hx') as (y' & (nd' & Hnd' & <-)%get_prev_Some & Hy').
  simplify_eq. exists nd. split_and!; [done|set_solver|done|].
  intros Hck. pose proof (is_list_owner _ _ _ _ His Hck Hx) as Ho.
  apply get_list_sentinel_Some in Ho as (? & ? & ?). by simplify_eq.
Qed.

Lemma in_range_nonnull (x : Z) : in_range x → x ≠ 0.
Proof. unfold in_range. lia. Qed.

(** An unchanged sub-heap keeps its list. *)
Lemma is_list_frame h h' s l :
  is_list check h s l →
  (∀ x, x ∈ s :: l → h' !! x = h !! x) →
  is_list check h' s l.
Proof.
  intros (Hc & Hnd & Hr & Hls) Hfr. split_and!; [|done|done|].
  - apply (chain_frame h); [done| |]; intros x Hx;
      unfold get_next, get_prev; rewrite Hfr; set_solver.
  - intros Hck. specialize (Hls Hck). apply Forall_forall. intros x Hx.
    unfold get_list_sentinel. rewrite Hfr by done.
    by eapply Forall_forall in Hls.
Qed.

End ListInvariant.

(** ** The operations of LinkedList on a well-formed list *)

Section ListOps.

Variable check : bool.
Implicit Types (h : heap) (l : list Z) (L : LinkedList) (b : Bridge).

Ltac unfold_macros :=
  unfold BERRYDB_ASSUME, if_check_is_on, BERRYDB_CHECK, nullptr.

Lemma is_list_next h s l1 x l2 :
  is_list check h s (l1 ++ x :: l2) →
  next check h x = Ok (default s (head l2)).
Proof.
  intros His. pose proof His as (Hc & _).
  apply chain_app in Hc as [_ [_ Hc]]. apply chain_first_link in Hc.
  apply next_ok; [done| |].
  - apply in_range_nonnull, (is_list_range check h s (l1 ++ x :: l2)); [done|].
    pose proof (default_head_elem s l2). set_solver.
  - intros Hck. exists s. split.
    + apply (is_list_owner check h s (l1 ++ x :: l2)); [done|done|set_solver].
    + apply in_range_nonnull, (is_list_range check h s _ s His). set_solver.
Qed.

Lemma is_list_next_sentinel h s l :
  is_list check h s l → next check h s = Ok (default s (head l)).
Proof.
  intros His. pose proof His as (Hc & _). apply chain_first_link in Hc.
  apply next_ok; [done| |].
  - apply in_range_nonnull, (is_list_range check h s l); [done|].
    pose proof (default_head_elem s l). set_solver.
  - intros Hck. exists s. split.
    + apply (is_list_owner check h s l); [done|done|set_solver].
    + apply in_range_nonnull, (is_list_range check h s _ s His). set_solver.
Qed.

Lemma is_list_prev h s l1 x l2 :
  is_list check h s (l1 ++ x :: l2) →
  prev check h x = Ok (default s (last l1)).
Proof.
  intros His. pose proof His as (Hc & _).
  apply chain_app in Hc as [Hc _]. apply chain_last_link in Hc. simpl in Hc.
  apply prev_ok; [done| |].
  - apply in_range_nonnull, (is_list_range check h s (l1 ++ x :: l2)); [done|].
    pose proof (default_last_elem s l1). set_solver.
  - intros Hck. exists s. split.
    + apply (is_list_owner check h s (l1 ++ x :: l2)); [done|done|set_solver].
    + apply in_range_nonnull, (is_list_range check h s _ s His). set_solver.
Qed.

Lemma is_list_prev_sentinel h s l :
  is_list check h s l → prev check h s = Ok (default s (last l)).
Proof.
  intros His. pose proof His as (Hc & _). apply chain_last_link in Hc.
  apply prev_ok; [done| |].
  - apply in_range_nonnull, (is_list_range check h s l); [done|].
    apply default_last_elem.
  - intros Hck. exists s. split.
    + apply (is_list_owner check h s l); [done|done|set_solver].
    + apply in_range_nonnull, (is_list_range check h s _ s His). set_solver.
Qed.

Lemma iterator_new_ok (x : Z) : x ≠ 0 → iterator_new check x = Ok (mkIter x).
Proof. intros Hx. unfold iterator_new. unfold_macros. by exec. Qed.

Lemma begin_ok h L l :
  is_list check h (sentinel_ L) l →
  begin check h L = Ok (mkIter (default (sentinel_ L) (head l))).
Proof.
  intros His. unfold begin. rewrite (is_list_next_sentinel _ _ _ His). simpl.
  apply iterator_new_ok, in_range_nonnull.
  apply (is_list_range check h (sentinel_ L) l); [done|].
  pose proof (default_head_elem (sentinel_ L) l). set_solver.
Qed.

Lemma end_ok h L l :
  is_list check h (sentinel_ L) l → end_ check L = Ok (mkIter (sentinel_ L)).
Proof.
  intros His. apply iterator_new_ok, in_range_nonnull.
  apply (is_list_range check h (sentinel_ L) l); [done|set_solver].
Qed.

Lemma empty_ok h L l :
  is_list check h (sentinel_ L) l →
  empty check h L = Ok (bool_decide (l = [])).
Proof.
  intros His. unfold empty. rewrite (is_list_next_sentinel _ _ _ His). simpl.
  destruct l as [|x l]; simpl; [by rewrite Z.eqb_refl|].
  destruct His as (_ & Hnd & _). apply NoDup_cons in Hnd as [Hs _].
  rewrite (proj2 (Z.eqb_neq _ _)); [done|]. set_solver.
Qed.

Lemma heap_cell_fields h x (a c d : Z) :
  get_next h x = Some a → get_prev h x = Some c →
  get_list_sentinel h x = Some d → h !! x = Some (mkNode a c d).
Proof.
  unfold get_next, get_prev, get_list_sentinel.
  destruct (h !! x) as [[]|]; simpl; congruence.
Qed.

Lemma HostForNode_ok b h n nd :
  h !! n = Some nd → (check = true → n ≠ list_sentinel_ nd) →
  HostForNode check b h n = Ok (n - node_offset b).
Proof.
  intros Hn Hck. unfold HostForNode. unfold_macros.
  destruct check; [specialize (Hck eq_refl)|]; by exec.
Qed.

(** *** insert *)

Lemma insert_ok b h L l1 l2 v :
  let s := sentinel_ L in
  is_list check h s (l1 ++ l2) →
  detached check h (NodeForHost b v) →
  NodeForHost b v ∉ s :: l1 ++ l2 →
  in_range (NodeForHost b v) → v ≠ 0 →
  ∃ h', insert check b h L (mkIter (default s (head l2))) v
        = Ok (h', mkList s ((size_ L + 1) mod size_modulus)) ∧
        is_list check h' s (l1 ++ NodeForHost b v :: l2) ∧
        (∀ x, x ≠ NodeForHost b v → x ≠ default s (last l1) →
              x ≠ default s (head l2) → h' !! x = h !! x).
Proof.
  intros s His (nd & Hn & Hnull) Hnotin Hr Hv.
  remember (NodeForHost b v) as n eqn:En.
  pose proof His as (Hc & Hnd & _).
  apply chain_app in Hc as [Hc1 _]. apply chain_last_link in Hc1.
  destruct Hc1 as [(np & Hp & Hpn)%get_next_Some
                   (npos & Hpos & Hpp)%get_prev_Some].
  pose proof (default_last_elem s l1) as Hpin.
  pose proof (default_head_elem s l2) as Hposin.
  assert (Hposin' : default s (head l2) ∈ s :: l1 ++ l2) by set_solver.
  assert (Hpin' : default s (last l1) ∈ s :: l1 ++ l2) by set_solver.
  destruct (is_list_node check _ _ _ _ His Hposin')
    as (npos' & Hpos' & Hnxin & _ & Hown).
  rewrite Hpos in Hpos'. injection Hpos' as <-.
  pose proof (in_range_nonnull _ (is_list_range check _ _ _ _ His Hposin')).
  pose proof (in_range_nonnull _ (is_list_range check _ _ _ _ His Hpin')).
  pose proof (in_range_nonnull _ (is_list_range check _ _ _ _ His Hnxin)).
  pose proof (in_range_nonnull _ Hr) as Hn0.
  assert (Hs0 : s ≠ 0).
  { apply in_range_nonnull, (is_list_range check h s (l1 ++ l2)); [done|].
    set_solver. }
  destruct (InsertBefore_ok check h n (default s (head l2))
              nd npos np) as (h' & Hins & Hnx & Hpv & Hls); try done.
  { by rewrite Hpp. }
  { intros ->. done. }
  { rewrite Hpp. intros ->. done. }
  { by rewrite Hpp. }
  { intros Hck. split_and!; [by apply Hnull|done|]. by rewrite Hown. }
  exists h'. split_and!.
  - unfold insert. rewrite <- En. unfold_macros.
    rewrite (HostForNode_ok b h _ nd Hn).
    2:{ intros Hck. rewrite (Hnull Hck). simpl. done. }
    exec. by rewrite Hins.
  - rewrite Hpp in *. eapply (is_list_insert check h h'); try done.
    intros x. rewrite Hls. case_decide; [|done].
    destruct check; [by rewrite Hown|done].
  - intros x Hx1 Hx2 Hx3. rewrite Hpp in *. apply heap_cell_ext.
    + rewrite Hnx. by repeat case_decide.
    + rewrite Hpv. by repeat case_decide.
    + rewrite Hls. by repeat case_decide.
Qed.

(** *** erase *)

Lemma erase_pos_ok h L l1 l2 n :
  let s := sentinel_ L in
  is_list check h s (l1 ++ n :: l2) → 0 < size_ L →
  ∃ h', erase_pos check h L (mkIter n)
        = Ok (h', mkList s ((size_ L - 1) mod size_modulus)) ∧
        is_list check h' s (l1 ++ l2) ∧
        (check = true → h' !! n = Some (mkNode nullptr nullptr nullptr)) ∧
        is_Some (h' !! n) ∧
        (∀ x, x ≠ n → x ≠ default s (last l1) →
              x ≠ default s (head l2) → h' !! x = h !! x).
Proof.
  intros s His Hsz.
  pose proof His as (Hc & Hnd & _).
  apply chain_app in Hc as [Hc1 [_ Hc2]].
  apply chain_last_link in Hc1. apply chain_first_link in Hc2.
  simpl in Hc1.
  destruct Hc1 as [(np & Hp & Hpn)%get_next_Some
                   (nd & Hn & Hnp)%get_prev_Some].
  destruct Hc2 as [(nd' & Hn' & Hnn)%get_next_Some
                   (nnx & Hnx & Hnxp)%get_prev_Some].
  rewrite Hn in Hn'. injection Hn' as <-.
  pose proof (default_last_elem s l1) as Hpin.
  pose proof (default_head_elem s l2) as Hnxin.
  assert (Hnin : n ∈ s :: l1 ++ n :: l2) by set_solver.
  assert (Hpin' : default s (last l1) ∈ s :: l1 ++ n :: l2) by set_solver.
  assert (Hnxin' : default s (head l2) ∈ s :: l1 ++ n :: l2) by set_solver.
  pose proof (in_range_nonnull _ (is_list_range check _ _ _ _ His Hnin)).
  pose proof (in_range_nonnull _ (is_list_range check _ _ _ _ His Hpin')).
  pose proof (in_range_nonnull _ (is_list_range check _ _ _ _ His Hnxin')).
  assert (Hs0 : s ≠ 0).
  { apply in_range_nonnull, (is_list_range check h s (l1 ++ n :: l2));
      [done|set_solver]. }
  rewrite app_comm_cons, <- Permutation_middle in Hnd.
  apply NoDup_cons in Hnd as [Hnotin Hnd].
  assert (Hown : check = true → list_sentinel_ nd = s).
  { intros Hck. pose proof (is_list_owner check _ _ _ _ His Hck Hnin) as Ho.
    apply get_list_sentinel_Some in Ho as (? & ? & ?). by simplify_eq. }
  assert (Hns : n ≠ s) by set_solver.
  destruct (Remove_ok check h n nd nnx np)
    as (h' & Hrm & Hnx' & Hpv' & Hls'); try done.
  { by rewrite Hnn. }
  { by rewrite Hnp. }
  { rewrite Hnn. intros Heq. apply Hnotin. rewrite Heq. set_solver. }
  { rewrite Hnp. intros Heq. apply Hnotin. rewrite Heq. set_solver. }
  { by rewrite Hnn. }
  { by rewrite Hnp. }
  { intros Hck. rewrite (Hown Hck). done. }
  rewrite Hnn, Hnp in *.
  exists h'. split_and!.
  - unfold erase_pos. unfold_macros. simpl.
    destruct check; [specialize (Hown eq_refl)|]; exec; by rewrite Hrm; exec.
  - by eapply (is_list_remove check h h').
  - intros Hck. rewrite Hck in *. apply heap_cell_fields.
    + rewrite Hnx'. by rewrite decide_True.
    + rewrite Hpv'. by rewrite decide_True.
    + rewrite Hls'. by rewrite decide_True.
  - specialize (Hnx' n). rewrite decide_True in Hnx' by done.
    apply get_next_Some in Hnx' as (? & -> & _). done.
  - intros x Hx1 Hx2 Hx3. apply heap_cell_ext.
    + rewrite Hnx'. by repeat case_decide.
    + rewrite Hpv'. by repeat case_decide.
    + rewrite Hls'. by repeat case_decide.
Qed.

(** [erase(value)] runs the code of [erase(pos)] on the node of the value. *)
Lemma erase_as_erase_pos b h L v :
  NodeForHost b v ≠ nullptr →
  erase check b h L v = erase_pos check h L (mkIter (NodeForHost b v)).
Proof.
  intros Hn. unfold erase, erase_pos. simpl.
  unfold BERRYDB_ASSUME at 2.
  by rewrite (proj2 (Z.eqb_neq _ _) Hn).
Qed.

End ListOps.

(** ** Iterators and traversals *)

Section Traversal.

Variable check : bool.
Implicit Types (h : heap) (l : list Z) (L : LinkedList) (b : Bridge).

Lemma is_list_prev_at h s l1 l2 :
  is_list check h s (l1 ++ l2) →
  prev check h (default s (head l2)) = Ok (default s (last l1)).
Proof.
  intros His. pose proof His as (Hc & _).
  apply chain_app in Hc as [Hc _]. apply chain_last_link in Hc.
  assert (Hs : s ∈ s :: l1 ++ l2) by set_solver.
  assert (Hp : default s (last l1) ∈ s :: l1 ++ l2).
  { pose proof (default_last_elem s l1). set_solver. }
  assert (Hx : default s (head l2) ∈ s :: l1 ++ l2).
  { pose proof (default_head_elem s l2). set_solver. }
  apply prev_ok; [done| |].
  - by apply in_range_nonnull, (is_list_range check h s (l1 ++ l2)).
  - intros Hck. exists s. split.
    + by apply (is_list_owner check h s (l1 ++ l2)).
    + by apply in_range_nonnull, (is_list_range check h s (l1 ++ l2)).
Qed.

Lemma is_list_not_sentinel h s l x :
  is_list check h s l → check = true → x ∈ l → is_sentinel h x = Ok false.
Proof.
  intros His Hck Hx.
  assert (Hx' : x ∈ s :: l) by set_solver.
  destruct (is_list_node check _ _ _ _ His Hx') as (nd & Hnd & _ & _ & Ho).
  rewrite (is_sentinel_Some _ _ _ Hnd), (Ho Hck).
  destruct His as (_ & Hnd' & _). apply NoDup_cons in Hnd' as [Hs _].
  f_equal. apply Z.eqb_neq. by intros ->.
Qed.

Lemma iterator_deref_ok b h s l x :
  is_list check h s l → x ∈ l →
  iterator_deref check b h (mkIter x) = Ok (host_of b x).
Proof.
  intros His Hx.
  assert (Hx' : x ∈ s :: l) by set_solver.
  destruct (is_list_node check _ _ _ _ His Hx') as (nd & Hnd & _ & _ & Ho).
  apply (HostForNode_ok check b h x nd Hnd).
  intros Hck. rewrite (Ho Hck).
  destruct His as (_ & Hnd' & _). apply NoDup_cons in Hnd' as [Hs _].
  by intros ->.
Qed.

Lemma iterator_incr_ok h s l1 x l2 :
  is_list check h s (l1 ++ x :: l2) →
  iterator_incr check h (mkIter x) = Ok (mkIter (default s (head l2))).
Proof.
  intros His. unfold iterator_incr, if_check_is_on, BERRYDB_CHECK. simpl.
  rewrite (is_list_next check _ _ _ _ _ His).
  assert (Hs : check = true → is_sentinel h x = Ok false).
  { intros Hck.
    apply (is_list_not_sentinel h s (l1 ++ x :: l2) x); [done|done|].
    set_solver. }
  destruct check; [by rewrite Hs|done].
Qed.

Lemma iterator_decr_ok h s l1 y l2 :
  is_list check h s (l1 ++ y :: l2) →
  iterator_decr check h (mkIter (default s (head l2))) = Ok (mkIter y).
Proof.
  intros His. unfold iterator_decr, if_check_is_on, BERRYDB_CHECK. simpl.
  pose proof His as His'.
  rewrite (cons_middle y l1 l2), app_assoc in His'.
  rewrite (is_list_prev_at _ _ _ _ His'), last_snoc. simpl.
  assert (Hs : check = true → is_sentinel h y = Ok false).
  { intros Hck.
    apply (is_list_not_sentinel h s (l1 ++ y :: l2) y); [done|done|].
    set_solver. }
  destruct check; [by rewrite Hs|done].
Qed.

Lemma forward_loop_ok b h s l1 l2 fuel :
  is_list check h s (l1 ++ l2) → (length l2 ≤ fuel)%nat →
  forward_loop check fuel b h (mkIter (default s (head l2))) (mkIter s)
  = Ok (map (host_of b) l2).
Proof.
  revert l1 fuel. induction l2 as [|x l2 IH]; intros l1 fuel His Hf.
  - destruct fuel; simpl; unfold iterator_eq; simpl; by rewrite Z.eqb_refl.
  - destruct fuel as [|fuel]; [simpl in Hf; lia|].
    simpl. unfold iterator_eq. simpl.
    assert (Hxs : x ≠ s).
    { destruct His as (_ & Hnd & _). apply NoDup_cons in Hnd as [Hs _].
      intros ->. set_solver. }
    rewrite (proj2 (Z.eqb_neq _ _) Hxs).
    rewrite (iterator_deref_ok b h s (l1 ++ x :: l2)); [|done|set_solver].
    rewrite (iterator_incr_ok _ _ _ _ _ His). simpl.
    rewrite (cons_middle x l1 l2), app_assoc in His.
    rewrite (IH _ fuel His); [done|]. simpl in Hf. lia.
Qed.

Lemma backward_loop_ok b h s l1 l2 fuel :
  is_list check h s (l1 ++ l2) → (length l1 ≤ fuel)%nat →
  backward_loop check fuel b h (mkIter (default s (head l2)))
    (mkIter (default s (head (l1 ++ l2))))
  = Ok (map (host_of b) (rev l1)).
Proof.
  revert l2 fuel. induction l1 as [|y l1 IH] using rev_ind;
    intros l2 fuel His Hf.
  - destruct fuel; simpl; unfold iterator_eq; simpl; by rewrite Z.eqb_refl.
  - destruct fuel as [|fuel]; [rewrite length_app in Hf; simpl in Hf; lia|].
    rewrite <- app_assoc in His |- *. simpl in His |- *.
    unfold iterator_eq. simpl.
    assert (Hne : default s (head l2) ≠ default s (head (l1 ++ y :: l2))).
    { destruct His as (_ & Hnd & _).
      destruct (NoDup_split _ _ _ Hnd) as (_ & Hnd2 & _ & Hd).
      apply NoDup_cons in Hnd2 as [Hy _].
      pose proof (default_head_elem s l2) as Hin.
      intros Heq. destruct l1 as [|z l1]; simpl in Heq.
      - rewrite Heq in Hin. done.
      - apply (Hd z); [set_solver|]. rewrite <- Heq. set_solver. }
    rewrite (proj2 (Z.eqb_neq _ _) Hne).
    rewrite (iterator_decr_ok _ _ _ _ _ His). simpl.
    rewrite (iterator_deref_ok b h s (l1 ++ y :: l2)); [|done|set_solver].
    simpl. pose proof (IH (y :: l2) fuel His) as Hih. simpl in Hih.
    rewrite Hih.
    + by rewrite rev_unit.
    + rewrite length_app in Hf. simpl in Hf. lia.
Qed.

Lemma forward_ok b h L l fuel :
  is_list check h (sentinel_ L) l → (length l ≤ fuel)%nat →
  forward check fuel b h L = Ok (map (host_of b) l).
Proof.
  intros His Hf. unfold forward.
  rewrite (begin_ok check _ _ _ His), (end_ok check _ _ _ His). simpl.
  by apply (forward_loop_ok b h _ [] l).
Qed.

Lemma backward_ok b h L l fuel :
  is_list check h (sentinel_ L) l → (length l ≤ fuel)%nat →
  backward check fuel b h L = Ok (rev (map (host_of b) l)).
Proof.
  intros His Hf. unfold backward.
  rewrite (begin_ok check _ _ _ His), (end_ok check _ _ _ His). simpl.
  rewrite <- map_rev.
  pose proof (backward_loop_ok b h (sentinel_ L) l [] fuel) as Hb.
  rewrite app_nil_r in Hb. by apply Hb.
Qed.

End Traversal.

(** ** Inverting successful runs *)

Lemma bind_Ok_inv {A B} (m : result A) (f : A → result B) (y : B) :
  m ≫= f = Ok y → ∃ x, m = Ok x ∧ f x = Ok y.
Proof. destruct m; simpl; try done. eauto. Qed.

Lemma load_Ok_inv (h : heap) (p : Z) (nd : LinkedListNode) :
  load h p = Ok nd → h !! p = Some nd.
Proof. unfold load. destruct (h !! p); naive_solver. Qed.

Lemma CHECK_Ok_inv (c : bool) (u : unit) : BERRYDB_CHECK c = Ok u → c = true.
Proof. by destruct c. Qed.

Lemma ASSUME_Ok_inv (check c : bool) (u : unit) :
  BERRYDB_ASSUME check c = Ok u → c = true.
Proof. by destruct c, check. Qed.

Lemma store_prev_Ok_inv (h h' : heap) (p v : Z) :
  store_prev h p v = Ok h' → is_Some (h !! p).
Proof.
  unfold store_prev. intros (nd & ?%load_Ok_inv & _)%bind_Ok_inv. eauto.
Qed.

Section Inversion.

Variable check : bool.
Implicit Types (h : heap) (l : list Z) (L : LinkedList) (b : Bridge).

(** A successful [InsertBefore] had an allocated node, which with CHECKs
    enabled was null in all its fields. *)
Lemma InsertBefore_Ok_inv h h' n pos :
  InsertBefore check h n pos = Ok h' →
  ∃ nd, h !! n = Some nd ∧ (check = true → nd = mkNode 0 0 0).
Proof.
  unfold InsertBefore, if_check_is_on.
  intros (? & _ & H)%bind_Ok_inv.
  apply bind_Ok_inv in H as (h1 & H1 & H).
  revert H1 H. destruct check; intros H1 H.
  - unfold is_sentinel in H1.
    apply bind_Ok_inv in H1 as (sb & (nd & Hnd%load_Ok_inv & _)%bind_Ok_inv & H1).
    apply bind_Ok_inv in H1 as (? & _ & H1).
    apply bind_Ok_inv in H1 as (nd' & Hnd'%load_Ok_inv & H1).
    apply bind_Ok_inv in H1 as (? & Hc1%CHECK_Ok_inv & H1).
    apply bind_Ok_inv in H1 as (? & Hc2%CHECK_Ok_inv & H1).
    apply bind_Ok_inv in H1 as (? & Hc3%CHECK_Ok_inv & H1).
    simplify_eq. exists nd. split; [done|]. intros _.
    destruct nd as [a c d]. simpl in *. unfold nullptr in *.
    apply Z.eqb_eq in Hc1, Hc2, Hc3. by subst.
  - simplify_eq.
    apply bind_Ok_inv in H as (nx & _ & H).
    apply bind_Ok_inv in H as (? & _ & H).
    apply bind_Ok_inv in H as (? & _ & H).
    apply bind_Ok_inv in H as (h2 & [nd Hnd]%store_prev_Ok_inv & H).
    exists nd. by split.
Qed.

Lemma insert_Ok_inv b h L pos v r :
  insert check b h L pos v = Ok r →
  v ≠ 0 ∧ NodeForHost b v ≠ 0 ∧
  ∃ nd, h !! NodeForHost b v = Some nd ∧ (check = true → nd = mkNode 0 0 0).
Proof.
  unfold insert.
  intros (? & Hv%ASSUME_Ok_inv & H)%bind_Ok_inv.
  apply bind_Ok_inv in H as (? & Hn%ASSUME_Ok_inv & H).
  apply bind_Ok_inv in H as (host & _ & H).
  apply bind_Ok_inv in H as (? & _ & H).
  apply bind_Ok_inv in H as (h' & H' & H).
  apply negb_true_iff, Z.eqb_neq in Hv, Hn.
  split_and!; [done|done|]. by eapply InsertBefore_Ok_inv.
Qed.

(** A successful checked [erase] found a non-sentinel node whose
    back-reference is the sentinel of this list. *)
Lemma erase_Ok_inv b h L v r :
  check = true → erase check b h L v = Ok r →
  ∃ nd, h !! NodeForHost b v = Some nd ∧
        list_sentinel_ nd = sentinel_ L ∧ NodeForHost b v ≠ sentinel_ L.
Proof.
  intros Hck. unfold erase, if_check_is_on, is_sentinel. rewrite Hck.
  intros (? & H & _)%bind_Ok_inv.
  apply bind_Ok_inv in H as (sb & (nd & Hnd%load_Ok_inv & Hsb)%bind_Ok_inv & H).
  apply bind_Ok_inv in H as (? & Hc%CHECK_Ok_inv & H).
  apply bind_Ok_inv in H as (nd' & Hnd'%load_Ok_inv & Hc'%CHECK_Ok_inv).
  simplify_eq. apply negb_true_iff, Z.eqb_neq in Hc. apply Z.eqb_eq in Hc'.
  exists nd. split_and!; [done|done|congruence].
Qed.

End Inversion.

(** ** Counting nodes *)

(** Distinct 64-bit addresses are fewer than [2 ^ 64]. *)
Lemma NoDup_in_range_length (l : list Z) :
  NoDup l → Forall in_range l → Z.of_nat (length l) < size_modulus.
Proof.
  intros Hnd Hr.
  assert (Hsub : l ⊆+ seqZ 1 (size_modulus - 1)).
  { apply NoDup_submseteq; [done|]. intros x Hx.
    eapply Forall_forall in Hr; [|done]. unfold in_range in Hr.
    apply elem_of_seqZ. lia. }
  apply submseteq_length in Hsub. rewrite length_seqZ in Hsub.
  assert (0 < size_modulus) by (unfold size_modulus; lia). lia.
Qed.

Lemma filter_all {A} (P : A → Prop) `{∀ x, Decision (P x)} (l : list A) :
  (∀ x, x ∈ l → P x) → filter P l = l.
Proof.
  induction l as [|a l IH]; [done|]. intros Hall.
  rewrite filter_cons_True by (apply Hall; set_solver).
  f_equal. apply IH. intros x Hx. apply Hall. set_solver.
Qed.

Lemma filter_remove_NoDup (n : Z) (l1 l2 : list Z) :
  NoDup (l1 ++ n :: l2) → filter (λ x, x ≠ n) (l1 ++ n :: l2) = l1 ++ l2.
Proof.
  intros Hnd. rewrite <- Permutation_middle in Hnd.
  apply NoDup_cons in Hnd as [Hn _].
  rewrite filter_app, filter_cons_False by naive_solver.
  rewrite !filter_all; [done| |]; intros x Hx ->; set_solver.
Qed.

(** ** One list under a sequence of operations *)

Section Sequences.

Variable check : bool.
Implicit Types (h : heap) (l : list Z) (L : LinkedList) (b : Bridge).

Lemma list_inv_new (h0 : heap) (s junk : Z) :
  in_range s → fresh_heap check h0 →
  list_inv check (LinkedList_new check h0 s junk).1
    (LinkedList_new check h0 s junk).2 [].
Proof.
  intros Hs Hfr. unfold LinkedList_new, LinkedListNode_sentinel. simpl.
  split_and!.
  - split_and!.
    + simpl. split; getters.
    + apply NoDup_singleton.
    + by apply Forall_singleton.
    + intros ->. apply Forall_singleton. getters.
  - done.
  - intros a nd Ha. simpl.
    destruct (decide (a = s)) as [->|Hne].
    + split; [done|]. intros _ Hn. set_solver.
    + rewrite lookup_insert_ne in Ha by done.
      destruct (Hfr a nd Ha) as [? Hnull]. split; [done|]. by intros ? _; apply Hnull.
Qed.

Lemma insert_list_inv b h L l1 l2 v h' L' :
  list_inv check h L (l1 ++ l2) →
  (check = false → NodeForHost b v ∉ sentinel_ L :: l1 ++ l2) →
  insert check b h L (mkIter (default (sentinel_ L) (head l2))) v
  = Ok (h', L') →
  list_inv check h' L' (l1 ++ NodeForHost b v :: l2) ∧
  sentinel_ L' = sentinel_ L.
Proof.
  intros (His & Hsz & Hall) Hvalid Hrun.
  destruct (insert_Ok_inv check _ _ _ _ _ _ Hrun) as (Hv & Hn0 & nd & Hnd & Hnull).
  destruct (Hall _ _ Hnd) as [Hr _].
  assert (Hnotin : NodeForHost b v ∉ sentinel_ L :: l1 ++ l2).
  { destruct check eqn:Hck; [|by apply Hvalid].
    intros Hin. pose proof (is_list_owner _ _ _ _ _ His eq_refl Hin) as Ho.
    apply get_list_sentinel_Some in Ho as (nd' & Hnd' & Hls).
    rewrite Hnull in Hnd by done. simplify_eq. simpl in Hls.
    assert (in_range (sentinel_ L)) as Hrs.
    { apply (is_list_range true h (sentinel_ L) (l1 ++ l2)); [done|set_solver]. }
    apply in_range_nonnull in Hrs. unfold nullptr in *. congruence. }
  destruct (insert_ok check b h L l1 l2 v) as (h'' & Hins & His' & Hfr);
    try done.
  { exists nd. by split. }
  rewrite Hins in Hrun. injection Hrun as <- <-. simpl.
  split; [|done]. split_and!; simpl.
  - done.
  - pose proof His' as (_ & Hnd' & Hr' & _).
    pose proof (NoDup_in_range_length _ Hnd' Hr') as Hlen.
    rewrite Hsz. simpl in Hlen. rewrite !length_app in *. simpl in *.
    rewrite Z.mod_small; lia.
  - intros a nd' Ha.
    destruct (decide (a ∈ sentinel_ L :: l1 ++ NodeForHost b v :: l2))
      as [Hin|Hout].
    + split; [|done]. by eapply is_list_range.
    + rewrite Hfr in Ha.
      * destruct (Hall a nd' Ha) as [? Hnull']. split; [done|].
        intros Hck _. apply Hnull'; [done|]. set_solver.
      * set_solver.
      * pose proof (default_last_elem (sentinel_ L) l1). set_solver.
      * pose proof (default_head_elem (sentinel_ L) l2). set_solver.
Qed.

Lemma erase_list_inv b h L l v h' L' :
  list_inv check h L l →
  (check = false → NodeForHost b v ∈ l) →
  erase check b h L v = Ok (h', L') →
  list_inv check h' L' (filter (λ x, x ≠ NodeForHost b v) l) ∧
  sentinel_ L' = sentinel_ L.
Proof.
  intros (His & Hsz & Hall) Hvalid Hrun.
  assert (Hin : NodeForHost b v ∈ l).
  { destruct check eqn:Hck; [|by apply Hvalid].
    destruct (erase_Ok_inv true _ _ _ _ _ eq_refl Hrun)
      as (nd & Hnd & Hls & Hns).
    destruct (decide (NodeForHost b v ∈ sentinel_ L :: l)) as [Hi|Ho];
      [set_solver|].
    destruct (Hall _ _ Hnd) as [_ Hnull]. rewrite Hnull in Hls by done.
    simpl in Hls.
    assert (in_range (sentinel_ L)) as Hrs.
    { apply (is_list_range true h (sentinel_ L) l); [done|set_solver]. }
    apply in_range_nonnull in Hrs. unfold nullptr in *. congruence. }
  apply list_elem_of_split in Hin as (l1 & l2 & ->).
  pose proof His as (_ & Hnd & _). apply NoDup_cons in Hnd as [_ Hnd].
  rewrite (filter_remove_NoDup _ _ _ Hnd).
  assert (Hn0 : NodeForHost b v ≠ nullptr).
  { apply in_range_nonnull, (is_list_range check h (sentinel_ L) _ _ His).
    set_solver. }
  rewrite (erase_as_erase_pos check _ _ _ _ Hn0) in Hrun.
  destruct (erase_pos_ok check h L l1 l2 (NodeForHost b v))
    as (h'' & Her & His' & Hnull & _ & Hfr); [done| |].
  { rewrite Hsz, length_app. simpl. lia. }
  rewrite Her in Hrun. injection Hrun as <- <-. simpl.
  split; [|done]. split_and!; simpl.
  - done.
  - pose proof His as (_ & Hnd' & Hr' & _).
    pose proof (NoDup_in_range_length _ Hnd' Hr') as Hlen.
    rewrite Hsz. simpl in Hlen. rewrite !length_app in *. simpl in *.
    rewrite Z.mod_small; lia.
  - intros a nd' Ha.
    destruct (decide (a = NodeForHost b v)) as [->|Hne].
    { split.
      - apply (is_list_range check h (sentinel_ L) _ _ His). set_solver.
      - intros Hck _. rewrite (Hnull Hck) in Ha. by simplify_eq. }
    destruct (decide (a ∈ sentinel_ L :: l1 ++ l2)) as [Hin|Hout].
    + split; [|done]. by eapply is_list_range.
    + rewrite Hfr in Ha.
      * destruct (Hall a nd' Ha) as [? Hnull']. split; [done|].
        intros Hck _. apply Hnull'; [done|]. set_solver.
      * done.
      * pose proof (default_last_elem (sentinel_ L) l1). set_solver.
      * pose proof (default_head_elem (sentinel_ L) l2). set_solver.
Qed.

Lemma erase_pos_list_inv h L l pos h' L' :
  list_inv check h L l →
  (check = false → node_ pos ∈ l) →
  erase_pos check h L pos = Ok (h', L') →
  list_inv check h' L' (filter (λ x, x ≠ node_ pos) l) ∧
  sentinel_ L' = sentinel_ L.
Proof.
  intros Hinv Hvalid Hrun. destruct pos as [p]. simpl in *.
  assert (Hp : p ≠ nullptr).
  { unfold erase_pos in Hrun.
    apply bind_Ok_inv in Hrun as (? & Hp%ASSUME_Ok_inv & _).
    by apply negb_true_iff, Z.eqb_neq in Hp. }
  assert (E : NodeForHost (mkBridge 0) p = p)
    by (unfold NodeForHost; simpl; lia).
  pose proof (erase_list_inv (mkBridge 0) h L l p h' L' Hinv) as H.
  rewrite E in H. apply H; [done|].
  rewrite (erase_as_erase_pos check (mkBridge 0)); rewrite E; done.
Qed.

Lemma step_list_inv b h L l o h' L' :
  list_inv check h L l →
  (check = false → valid_op b (sentinel_ L) l o) →
  step check b (h, L) o = Ok (h', L') →
  list_inv check h' L' (abs_step b l o) ∧ sentinel_ L' = sentinel_ L.
Proof.
  intros Hinv Hvalid Hrun. pose proof Hinv as (His & _).
  destruct o as [v|v|v|pos]; simpl in *.
  - unfold push_back in Hrun. rewrite (end_ok check _ _ _ His) in Hrun.
    simpl in Hrun.
    apply (insert_list_inv b h L l [] v); rewrite ?app_nil_r; done.
  - unfold push_front in Hrun. rewrite (begin_ok check _ _ _ His) in Hrun.
    simpl in Hrun. by apply (insert_list_inv b h L [] l v).
  - by apply (erase_list_inv b h L l v).
  - by apply (erase_pos_list_inv h L l pos).
Qed.

Lemma abs_step_length b l o :
  (length (abs_step b l o) ≤ S (length l))%nat.
Proof.
  destruct o; simpl; rewrite ?length_app; simpl; try lia.
  - pose proof (length_filter (λ x, x ≠ NodeForHost b value) l). lia.
  - pose proof (length_filter (λ x, x ≠ node_ pos) l). lia.
Qed.

Lemma run_list_inv b ops h L l h' L' :
  list_inv check h L l →
  (check = false → valid_ops b (sentinel_ L) l ops) →
  run check b ops (h, L) = Ok (h', L') →
  ∃ l', list_inv check h' L' l' ∧
        (length l' ≤ length l + length ops)%nat.
Proof.
  revert h L l. induction ops as [|o ops IH]; intros h L l Hinv Hvalid Hrun.
  - simpl in Hrun. injection Hrun as <- <-. exists l. split; [done|lia].
  - simpl in Hrun. apply bind_Ok_inv in Hrun as ([h1 L1] & Hstep & Hrun).
    destruct (step_list_inv b h L l o h1 L1) as [Hinv1 Hs1]; [done| |done|].
    { intros Hck. by apply Hvalid. }
    destruct (IH h1 L1 _ Hinv1) as (l' & Hinv' & Hlen); [|done|].
    { intros Hck. rewrite Hs1. by apply Hvalid. }
    exists l'. split; [done|].
    pose proof (abs_step_length b l o). simpl. lia.
Qed.

End Sequences.

(** ** Sequences that respect the preconditions run to their end *)

Section Totality.

Variable check : bool.
Implicit Types (h : heap) (l : list Z) (L : LinkedList) (b : Bridge).

Lemma insert_ok_alloc b h L l1 l2 v h' L' :
  is_list check h (sentinel_ L) (l1 ++ l2) →
  detached check h (NodeForHost b v) →
  NodeForHost b v ∉ sentinel_ L :: l1 ++ l2 →
  in_range (NodeForHost b v) → v ≠ 0 →
  insert check b h L (mkIter (default (sentinel_ L) (head l2))) v
  = Ok (h', L') →
  ∀ x, is_Some (h !! x) → is_Some (h' !! x).
Proof.
  intros His Hdet Hnotin Hr Hv Hrun x Hx.
  destruct (insert_ok check b h L l1 l2 v) as (h'' & Hins & His' & Hfr);
    try done.
  rewrite Hins in Hrun. injection Hrun as <- <-.
  destruct (decide (x ∈ sentinel_ L :: l1 ++ NodeForHost b v :: l2))
    as [Hin|Hout].
  - destruct (is_list_node check _ _ _ _ His' Hin) as (? & -> & _). done.
  - rewrite Hfr; [done|set_solver| |].
    + pose proof (default_last_elem (sentinel_ L) l1). set_solver.
    + pose proof (default_head_elem (sentinel_ L) l2). set_solver.
Qed.

Lemma erase_pos_ok_alloc h L l1 l2 n h' L' :
  is_list check h (sentinel_ L) (l1 ++ n :: l2) → 0 < size_ L →
  erase_pos check h L (mkIter n) = Ok (h', L') →
  ∀ x, is_Some (h !! x) → is_Some (h' !! x).
Proof.
  intros His Hsz Hrun x Hx.
  destruct (erase_pos_ok check h L l1 l2 n)
    as (h'' & Her & His' & _ & Hn & Hfr); try done.
  rewrite Her in Hrun. injection Hrun as <- <-.
  destruct (decide (x = n)) as [->|Hne]; [done|].
  destruct (decide (x ∈ sentinel_ L :: l1 ++ l2)) as [Hin|Hout].
  - destruct (is_list_node check _ _ _ _ His' Hin) as (? & -> & _). done.
  - rewrite Hfr; [done|done| |].
    + pose proof (default_last_elem (sentinel_ L) l1). set_solver.
    + pose proof (default_head_elem (sentinel_ L) l2). set_solver.
Qed.

Lemma runnable_valid b h0 s l o : runnable_op b h0 s l o → valid_op b s l o.
Proof. destruct o; simpl; tauto. Qed.

Lemma step_total b h0 h L l o :
  list_inv check h L l →
  (∀ x, is_Some (h0 !! x) → is_Some (h !! x)) →
  runnable_op b h0 (sentinel_ L) l o →
  ∃ h' L', step check b (h, L) o = Ok (h', L') ∧
           ∀ x, is_Some (h0 !! x) → is_Some (h' !! x).
Proof.
  intros (His & Hsz & Hall) Halloc Hrun.
  assert (Hpush : ∀ v l1 l2, l = l1 ++ l2 →
            v ≠ nullptr → is_Some (h0 !! NodeForHost b v) →
            NodeForHost b v ∉ sentinel_ L :: l →
            ∃ h' L',
              insert check b h L
                (mkIter (default (sentinel_ L) (head l2))) v = Ok (h', L') ∧
              ∀ x, is_Some (h0 !! x) → is_Some (h' !! x)).
  { intros v l1 l2 -> Hv Hin Hnotin.
    destruct (Halloc _ Hin) as [nd Hnd].
    destruct (Hall _ _ Hnd) as [Hr Hnull].
    assert (Hdet : detached check h (NodeForHost b v)).
    { exists nd. split; [done|]. intros Hck. by apply Hnull. }
    destruct (insert_ok check b h L l1 l2 v) as (h' & Hins & _); try done.
    eexists h', _. split; [exact Hins|].
    intros x Hx. eapply insert_ok_alloc; eauto. }
  assert (Herase : ∀ n, n ∈ l →
            ∃ h' L', erase_pos check h L (mkIter n) = Ok (h', L') ∧
                     ∀ x, is_Some (h0 !! x) → is_Some (h' !! x)).
  { intros n (l1 & l2 & ->)%list_elem_of_split.
    assert (Hpos : 0 < size_ L).
    { rewrite Hsz, length_app. simpl. lia. }
    destruct (erase_pos_ok check h L l1 l2 n) as (h' & Her & _); try done.
    eexists h', _. split; [exact Her|].
    intros x Hx. eapply erase_pos_ok_alloc; eauto. }
  destruct o as [v|v|v|[p]]; simpl in *.
  - destruct Hrun as (Hv & Hin & Hnotin).
    unfold push_back. rewrite (end_ok check _ _ _ His). simpl.
    apply (Hpush v l []); [by rewrite app_nil_r|done..].
  - destruct Hrun as (Hv & Hin & Hnotin).
    unfold push_front. rewrite (begin_ok check _ _ _ His). simpl.
    by apply (Hpush v [] l).
  - rewrite erase_as_erase_pos; [by apply Herase|].
    apply in_range_nonnull, (is_list_range check h (sentinel_ L) l); [done|].
    set_solver.
  - by apply Herase.
Qed.

(** Every sequence that respects the preconditions runs to its end, with and
    without CHECKs. *)
Lemma run_total b h0 ops h L l :
  list_inv check h L l →
  (∀ x, is_Some (h0 !! x) → is_Some (h !! x)) →
  runnable_ops b h0 (sentinel_ L) l ops →
  ∃ st, run check b ops (h, L) = Ok st.
Proof.
  revert h L l. induction ops as [|o ops IH]; intros h L l Hinv Halloc Hrun.
  - by eexists.
  - destruct Hrun as [Ho Hrun].
    destruct (step_total b h0 h L l o Hinv Halloc Ho)
      as (h' & L' & Hstep & Halloc').
    destruct (step_list_inv check b h L l o h' L' Hinv) as [Hinv' Hs];
      [by intros _; eapply runnable_valid|done|].
    simpl. rewrite Hstep. simpl.
    apply (IH h' L' _ Hinv' Halloc'). by rewrite Hs.
Qed.

Lemma run_total_new b h0 s junk ops :
  in_range s → fresh_heap check h0 →
  runnable_ops b h0 s [] ops →
  ∃ st, run check b ops (LinkedList_new check h0 s junk) = Ok st.
Proof.
  intros Hs Hfr Hrun.
  pose proof (list_inv_new check h0 s junk Hs Hfr) as Hinv.
  destruct (LinkedList_new check h0 s junk) as [h L] eqn:Hnew.
  unfold LinkedList_new, LinkedListNode_sentinel in Hnew.
  injection Hnew as <- <-. simpl in Hinv.
  apply (run_total b h0 ops _ _ [] Hinv); [|done].
  intros x Hx. simpl.
  destruct (decide (s = x)) as [->|Hne].
  - by rewrite lookup_insert_eq.
  - by rewrite lookup_insert_ne.
Qed.

End Totality.

(** ** The move constructor *)

Section Move.

Implicit Types (h : heap) (l : list Z) (L : LinkedList) (b : Bridge).

(** The loop rewrites the back-reference of every node of the chain and
    nothing else. *)
Lemma move_loop_ok fuel h d s a l :
  chain h a l d → NoDup l → d ∉ l → s ∉ l →
  Forall (λ x, x ≠ 0) (a :: l ++ [d]) →
  Forall (λ x, get_list_sentinel h x = Some s) l →
  (length l ≤ fuel)%nat →
  ∃ h', move_loop fuel h d s (default d (head l)) = Ok h' ∧
        (∀ x, get_next h' x = get_next h x) ∧
        (∀ x, get_prev h' x = get_prev h x) ∧
        (∀ x, get_list_sentinel h' x =
              if decide (x ∈ l) then Some d else get_list_sentinel h x).
Proof.
  revert fuel h a. induction l as [|x l IH];
    intros fuel h a Hc Hnd Hd Hs H0 Hls Hf.
  - exists h. split_and!; try done.
    destruct fuel; simpl; by rewrite Z.eqb_refl.
  - destruct fuel as [|fuel]; [simpl in Hf; lia|].
    simpl in Hc. destruct Hc as [[_ Hpx] Hc].
    pose proof (chain_first_link _ _ _ _ Hc) as [Hnx _].
    apply get_prev_Some in Hpx as ([nx pv ls] & Hx & Hpv).
    apply get_next_Some in Hnx as (nd' & Hx' & Hnx).
    rewrite Hx in Hx'. injection Hx' as <-. simpl in Hpv, Hnx. subst nx pv.
    apply Forall_cons in Hls as [Hlsx Hls].
    apply get_list_sentinel_Some in Hlsx as (nd' & Hx' & Hlsx).
    rewrite Hx in Hx'. injection Hx' as <-. simpl in Hlsx. subst ls.
    apply NoDup_cons in Hnd as [Hxl Hnd].
    apply Forall_cons in H0 as [Ha0 H0].
    pose proof H0 as [Hx0 H0']%Forall_cons.
    assert (Hxd : x ≠ d) by set_solver.
    assert (Hxs : x ≠ s) by set_solver.
    assert (Hn0 : default d (head l) ≠ 0).
    { pose proof (default_head_elem d l) as Hin.
      by eapply Forall_forall in H0'. }
    set (h1 := <[x := set_list_sentinel d (mkNode (default d (head l)) a s)]> h).
    destruct (IH fuel h1 x) as (h' & Hrun & Hnx' & Hpv' & Hls');
      try done.
    + apply (chain_frame h); [done| |]; intros y _; unfold h1; getters.
    + set_solver.
    + set_solver.
    + apply Forall_forall. intros y Hy. unfold h1.
      eapply Forall_forall in Hls; [|done].
      assert (y ≠ x) by (intros ->; done).
      unfold get_list_sentinel in *. by rewrite lookup_insert_ne.
    + simpl in Hf. lia.
    + exists h'. split_and!.
      * simpl. unfold BERRYDB_CHECK, nullptr. exec. exact Hrun.
      * intros y. rewrite Hnx'. unfold h1. getters.
      * intros y. rewrite Hpv'. unfold h1. getters.
      * intros y. rewrite Hls'. unfold h1.
        destruct (decide (y = x)) as [->|Hne].
        -- rewrite (decide_True (P := x ∈ x :: l)) by set_solver.
           case_decide; [done|]. getters.
        -- unfold get_list_sentinel. rewrite lookup_insert_ne by done.
           repeat case_decide; try done; set_solver.
Qed.

(** The links after the sentinel at [s] handed its chain to the one at [d]. *)
Lemma relink_chain (check : bool) h h' s d l :
  is_list check h s l → l ≠ [] → d ∉ s :: l →
  (∀ x, get_next h' x =
        if decide (x = d) then Some (default s (head l))
        else if decide (x = s) then Some s
        else if decide (x = default s (last l)) then Some d
        else get_next h x) →
  (∀ x, get_prev h' x =
        if decide (x = d) then Some (default s (last l))
        else if decide (x = s) then Some s
        else if decide (x = default s (head l)) then Some d
        else get_prev h x) →
  chain h' d l d ∧ link h' s s.
Proof.
  intros (Hc & Hnd & _) Hne Hd Hnx Hpv.
  destruct l as [|x l]; [done|]. clear Hne.
  rewrite last_cons_default in Hnx, Hpv. simpl in Hnx, Hpv, Hc.
  destruct Hc as [_ Hc].
  apply NoDup_cons in Hnd as [Hs Hnd].
  pose proof Hnd as [Hx Hnd']%NoDup_cons.
  pose proof (default_last_elem x l) as Hlast.
  assert (d ≠ s) by set_solver.
  assert (x ≠ s) by set_solver.
  assert (x ≠ d) by set_solver.
  assert (default x (last l) ≠ s) by (intros Heq; rewrite Heq in Hlast; done).
  assert (default x (last l) ≠ d)
    by (intros Heq; rewrite Heq in Hlast; set_solver).
  split; [simpl; split; [split|]|split].
  - rewrite Hnx. repeat case_decide; congruence.
  - rewrite Hpv. repeat case_decide; congruence.
  - apply (chain_retarget h h' x l s d); try done.
    + intros y Hy Hne. rewrite Hnx. rewrite !decide_False; try done.
      * intros ->. by apply Hs.
      * intros ->. set_solver.
    + intros y Hy. rewrite Hpv. rewrite !decide_False; try done.
      * intros ->. done.
      * intros ->. set_solver.
      * intros ->. set_solver.
    + split.
      * rewrite Hnx. repeat case_decide; congruence.
      * rewrite Hpv. repeat case_decide; congruence.
  - rewrite Hnx. repeat case_decide; congruence.
  - rewrite Hpv. repeat case_decide; congruence.
Qed.

Lemma LinkedListNode_move_relink (check : bool) fuel h d s l junk :
  is_list check h s l → l ≠ [] → h !! d = None → d ≠ 0 →
  (length l ≤ fuel)%nat →
  ∃ h', LinkedListNode_move check fuel h d s junk = Ok h' ∧
    (∀ x, get_next h' x =
          if decide (x = d) then Some (default s (head l))
          else if decide (x = s) then Some s
          else if decide (x = default s (last l)) then Some d
          else get_next h x) ∧
    (∀ x, get_prev h' x =
          if decide (x = d) then Some (default s (last l))
          else if decide (x = s) then Some s
          else if decide (x = default s (head l)) then Some d
          else get_prev h x) ∧
    (∀ x, get_list_sentinel h' x =
          if decide (x = d) then Some (if check then d else junk)
          else if decide (x ∈ l)
               then (if check then Some d else get_list_sentinel h x)
          else get_list_sentinel h x).
Proof.
  intros His Hne Hd Hd0 Hf.
  pose proof His as (Hc & Hnd & Hr & Hls).
  pose proof (chain_first_link _ _ _ _ Hc) as Hfl.
  pose proof (chain_last_link _ _ _ _ Hc) as Hll.
  set (first := default s (head l)) in *.
  set (last := default s (last l)) in *.
  assert (Hfin : first ∈ l).
  { unfold first. destruct l; [done|]. simpl. set_solver. }
  assert (Hlin : last ∈ l).
  { unfold last. destruct l as [|x l]; [done|].
    rewrite last_cons_default. apply default_last_elem. }
  apply NoDup_cons in Hnd as [Hs Hnd].
  assert (first ≠ s) by (intros Heq; by rewrite Heq in Hfin).
  assert (last ≠ s) by (intros Heq; by rewrite Heq in Hlin).
  assert (Hin : ∀ x, x ∈ s :: l → x ≠ d ∧ x ≠ 0).
  { intros x Hx. split.
    - intros ->.
      destruct (is_list_node check _ _ _ _ His Hx) as (? & ? & _). congruence.
    - by apply in_range_nonnull, (is_list_range check h s l). }
  destruct (Hin s) as [? ?]; [set_solver|].
  destruct (Hin first) as [? ?]; [set_solver|].
  destruct (Hin last) as [? ?]; [set_solver|].
  destruct Hfl as [([? ? lss] & Hns & Hnsn)%get_next_Some
                   ([? ? lsf] & Hnf & Hnfp)%get_prev_Some].
  destruct Hll as [([? ? lsl] & Hnl & Hnln)%get_next_Some
                   ([? ? ?] & Hns' & Hnsp)%get_prev_Some].
  rewrite Hns in Hns'. injection Hns' as <- <- <-.
  simpl in *. subst.
  assert (Hown : check = true → lss = s).
  { intros Hck.
    pose proof (is_list_owner check h s l s His Hck) as Ho.
    unfold get_list_sentinel in Ho. rewrite Hns in Ho. simpl in Ho.
    injection Ho as ->; [done|set_solver]. }
  assert (Hdl : d ∉ l) by (intros Hx; destruct (Hin d); [set_solver|done]).
  assert (H0l : Forall (λ x, x ≠ 0) (d :: l ++ [d])).
  { apply Forall_forall. intros x Hx.
    destruct (decide (x = d)) as [->|]; [done|]. apply Hin. set_solver. }
  assert (Ef : default s (head l) = first) by done.
  assert (El : default s (list.last l) = last) by done.
  assert (Hfd : default d (head l) = first).
  { rewrite <- Ef. by destruct l. }
  clearbody first last.
  destruct check.
  - specialize (Hown eq_refl). subst lss. specialize (Hls eq_refl).
    apply Forall_cons in Hls as [_ Hls].
    assert (∃ h6,
      (∀ x, get_next h6 x =
            if decide (x = d) then Some first
            else if decide (x = s) then Some s
            else if decide (x = last) then Some d else get_next h x) ∧
      (∀ x, get_prev h6 x =
            if decide (x = d) then Some last
            else if decide (x = s) then Some s
            else if decide (x = first) then Some d else get_prev h x) ∧
      (∀ x, get_list_sentinel h6 x =
            if decide (x = d) then Some d else get_list_sentinel h x) ∧
      ∀ h', move_loop fuel h6 d s first = Ok h' →
            LinkedListNode_move true fuel h d s junk = Ok h')
      as (h6 & Hnx6 & Hpv6 & Hls6 & Hrun).
    { clear Ef El Hfd. unfold LinkedListNode_move, next.
      unfold BERRYDB_ASSUME, if_check_is_on, BERRYDB_CHECK, nullptr.
      destruct (decide (first = last)) as [Hfl|Hfl].
      - rewrite <- Hfl in Hnl. rewrite Hnf in Hnl. injection Hnl as -> <- <-.
        exec. eexists. split_and!; [| | |intros h' Hh'; exact Hh']; getters.
      - exec. eexists. split_and!; [| | |intros h' Hh'; exact Hh']; getters. }
    destruct (relink_chain true h h6 s d l) as [Hc6 _];
      [done|done|set_solver|by rewrite Ef, El|by rewrite Ef, El|].
    destruct (move_loop_ok fuel h6 d s d l)
      as (h' & Hloop & Hnx' & Hpv' & Hls'); try done.
    { apply Forall_forall. intros x Hx. rewrite Hls6.
      rewrite decide_False by (intros ->; done).
      by eapply Forall_forall in Hls. }
    exists h'. split; [apply Hrun; by rewrite <- Hfd|]. split_and!.
    + intros x. by rewrite Hnx', Hnx6.
    + intros x. by rewrite Hpv', Hpv6.
    + intros x. rewrite Hls', Hls6.
      repeat case_decide; done.
  - clear Hown Hls Ef El Hfd.
    unfold LinkedListNode_move, next.
    unfold BERRYDB_ASSUME, if_check_is_on, BERRYDB_CHECK, nullptr.
    destruct (decide (first = last)) as [Hfl|Hfl].
    + rewrite <- Hfl in Hnl. rewrite Hnf in Hnl. injection Hnl as -> <- <-.
      exec. eexists. split; [done|]. split_and!; getters.
    + exec. eexists. split; [done|]. split_and!; getters.
Qed.

Lemma LinkedListNode_move_empty (check : bool) fuel h d s junk :
  is_list check h s [] → h !! d = None →
  ∃ h', LinkedListNode_move check fuel h d s junk = Ok h' ∧
    (∀ x, get_next h' x = if decide (x = d) then Some d else get_next h x) ∧
    (∀ x, get_prev h' x = if decide (x = d) then Some d else get_prev h x) ∧
    (∀ x, get_list_sentinel h' x =
          if decide (x = d) then Some (if check then d else junk)
          else get_list_sentinel h x).
Proof.
  intros His Hd.
  pose proof His as (Hc & _ & Hr & Hls). simpl in Hc.
  apply Forall_singleton, in_range_nonnull in Hr.
  destruct Hc as [([? ? lss] & Hns & Hnsn)%get_next_Some
                  ([? ? ?] & Hns' & Hnsp)%get_prev_Some].
  rewrite Hns in Hns'. injection Hns' as <- <- <-. simpl in *. subst.
  assert (s ≠ d) by congruence.
  assert (Hown : check = true → lss = s).
  { intros Hck. specialize (Hls Hck). rewrite Forall_singleton in Hls.
    unfold get_list_sentinel in Hls. rewrite Hns in Hls.
    by injection Hls. }
  unfold LinkedListNode_move, next.
  unfold BERRYDB_ASSUME, if_check_is_on, BERRYDB_CHECK, nullptr.
  destruct check.
  - specialize (Hown eq_refl). subst lss.
    exec. eexists. split; [done|]. split_and!; getters.
  - exec. eexists. split; [done|]. split_and!; getters.
Qed.

Lemma LinkedList_move_nonempty (check : bool) fuel h d L l junk :
  is_list check h (sentinel_ L) l → l ≠ [] → h !! d = None → in_range d →
  (length l ≤ fuel)%nat →
  ∃ h', LinkedList_move check fuel h d L junk
        = Ok (h', mkList d (size_ L), mkList (sentinel_ L) 0) ∧
        is_list check h' d l ∧ is_list check h' (sentinel_ L) [].
Proof.
  intros His Hne Hd Hrd Hf.
  destruct (LinkedListNode_move_relink check fuel h d (sentinel_ L) l junk)
    as (h' & Hmv & Hnx & Hpv & Hls); try done.
  { by apply in_range_nonnull. }
  assert (Hin : ∀ x, x ∈ sentinel_ L :: l → x ≠ d).
  { intros x Hx ->.
    destruct (is_list_node check _ _ _ _ His Hx) as (? & ? & _). congruence. }
  assert (Hdin : d ∉ sentinel_ L :: l) by (intros Hx; by apply (Hin d)).
  destruct (relink_chain check h h' (sentinel_ L) d l) as [Hc Hl]; try done.
  pose proof His as (_ & Hnd & Hr & Hown).
  apply NoDup_cons in Hnd as [Hs Hnd]. apply Forall_cons in Hr as [Hrs Hr].
  exists h'. split_and!.
  - unfold LinkedList_move. by rewrite Hmv.
  - split_and!; [done| | |].
    + apply NoDup_cons. split; [set_solver|done].
    + by apply Forall_cons.
    + intros ->. apply Forall_forall. intros x Hx. rewrite Hls.
      repeat case_decide; try done. set_solver.
  - split_and!; [done| | |].
    + apply NoDup_singleton.
    + by apply Forall_singleton.
    + intros Hck. apply Forall_singleton. rewrite Hls.
      rewrite !decide_False; [|done|set_solver].
      apply (is_list_owner check h (sentinel_ L) l); [done|done|set_solver].
Qed.

Lemma LinkedList_move_empty (check : bool) fuel h d L junk :
  is_list check h (sentinel_ L) [] → h !! d = None → in_range d →
  ∃ h', LinkedList_move check fuel h d L junk
        = Ok (h', mkList d (size_ L), mkList (sentinel_ L) 0) ∧
        is_list check h' d [] ∧ is_list check h' (sentinel_ L) [].
Proof.
  intros His Hd Hrd.
  destruct (LinkedListNode_move_empty check fuel h d (sentinel_ L) junk)
    as (h' & Hmv & Hnx & Hpv & Hls); try done.
  assert (Hsd : sentinel_ L ≠ d).
  { intros Heq. assert (Hx : sentinel_ L ∈ [sentinel_ L]) by set_solver.
    destruct (is_list_node check _ _ _ _ His Hx) as (? & ? & _). congruence. }
  pose proof His as ([Hn Hp] & _ & Hr & Hown). 
  exists h'. split_and!.
  - unfold LinkedList_move. by rewrite Hmv.
  - split_and!.
    + simpl. split; [rewrite Hnx|rewrite Hpv]; by rewrite decide_True.
    + apply NoDup_singleton.
    + by apply Forall_singleton.
    + intros ->. apply Forall_singleton. rewrite Hls. by rewrite decide_True.
  - split_and!; [|apply NoDup_singleton|done|].
    + simpl. split; [rewrite Hnx|rewrite Hpv]; by rewrite decide_False.
    + intros Hck. apply Forall_singleton. rewrite Hls, decide_False by done.
      specialize (Hown Hck). by rewrite Forall_singleton in Hown.
Qed.

End Move.

(** ** The runs of the specification's examples *)

(** [push_back(A); push_back(B); push_back(C)]: [front() == A],
    [back() == C], [size() == 3] and the iteration yields [A, B, C]. *)
Example run_push_back_abc :
  front true ex_bridge ex_abc.1 ex_abc.2 = Ok 100 ∧
  back true ex_bridge ex_abc.1 ex_abc.2 = Ok 300 ∧
  size ex_abc.2 = 3 ∧
  forward true 3 ex_bridge ex_abc.1 ex_abc.2 = Ok [100; 200; 300] ∧
  backward true 3 ex_bridge ex_abc.1 ex_abc.2 = Ok [300; 200; 100].
Proof. by vm_compute. Qed.

(** Then [erase(B)]: the size drops to 2 and the iteration yields [A, C];
    then [pop_front()]: the iteration yields [C], which is the front and the
    back. *)
Example run_erase_pop :
  let st := ex_state [PushBack 100; PushBack 200; PushBack 300; Erase 200] in
  size st.2 = 2 ∧ forward true 2 ex_bridge st.1 st.2 = Ok [100; 300] ∧
  ∃ h L, pop_front true st.1 st.2 = Ok (h, L) ∧
         forward true 1 ex_bridge h L = Ok [300] ∧
         front true ex_bridge h L = Ok 300 ∧
         back true ex_bridge h L = Ok 300.
Proof.
  split; [by vm_compute|]. split; [by vm_compute|].
  eexists _, _. split; [by vm_compute|]. by vm_compute.
Qed.

(** The same run without CHECKs. *)
Example run_unchecked :
  let st := ex_state_unchecked
              [PushBack 100; PushBack 200; PushBack 300; Erase 200] in
  size st.2 = 2 ∧ forward false 2 ex_bridge st.1 st.2 = Ok [100; 300] ∧
  backward false 2 ex_bridge st.1 st.2 = Ok [300; 100].
Proof. by vm_compute. Qed.

(** Violations of the preconditions: inserting an attached node and erasing
    a detached one are fatal with CHECKs enabled; without CHECKs the double
    insertion goes unnoticed, [size_] becomes 2 and the chain is corrupt. *)
Example run_violations :
  run true ex_bridge [PushBack 100; PushBack 100] ex_empty = Fatal ∧
  run true ex_bridge [PushBack 100; Erase 200] ex_empty = Fatal ∧
  let st := ex_state_unchecked [PushBack 100; PushBack 100] in
  size st.2 = 2 ∧ get_prev st.1 108 = Some 108 ∧
  forward false 2 ex_bridge st.1 st.2 = Undefined.
Proof. by vm_compute. Qed.

(** * The properties of the specification *)

(** C1: after any sequence of [push_back], [push_front] and [erase] (by
    value or by position) on a
    freshly constructed list, [size()] is the number of elements that a
    traversal from [begin()] to [end()] meets, and [empty()] is
    [size() == 0].  With CHECKs disabled the sequence has to respect the
    documented preconditions, since nothing detects their violation. *)
Theorem size_counts_attached (check : bool) (b : Bridge) (h0 : heap)
    (s junk : Z) (ops : list op) (h : heap) (L : LinkedList) :
  in_range s → fresh_heap check h0 →
  (check = false → valid_ops b s [] ops) →
  run check b ops (LinkedList_new check h0 s junk) = Ok (h, L) →
  ∃ vals, forward check (length ops) b h L = Ok vals ∧
          size L = Z.of_nat (length vals) ∧
          empty check h L = Ok (size L =? 0).
Proof.
  intros Hs Hfr Hvalid Hrun.
  pose proof (list_inv_new check h0 s junk Hs Hfr) as Hinv.
  destruct (LinkedList_new check h0 s junk) as [h1 L1] eqn:Hnew.
  assert (Hs1 : sentinel_ L1 = s).
  { unfold LinkedList_new in Hnew. by injection Hnew as <- <-. }
  simpl in Hinv.
  destruct (run_list_inv check b ops h1 L1 [] h L Hinv) as (l & Hinv' & Hlen);
    [by rewrite Hs1|done|].
  destruct Hinv' as (His & Hsz & _). simpl in Hlen.
  exists (map (host_of b) l). split_and!.
  - by apply forward_ok.
  - unfold size. by rewrite length_map.
  - rewrite (empty_ok check h L l His). unfold size. rewrite Hsz. f_equal.
    by destruct l.
Qed.

Lemma size_counts_attached_witness :
  let ops := [PushBack 100; PushFront 200; PushBack 300; Erase 100;
              ErasePos (mkIter 308)] in
  in_range 1000 ∧ fresh_heap true ex_heap ∧
  run true ex_bridge ops (LinkedList_new true ex_heap 1000 0)
  = Ok ((ex_state ops).1, (ex_state ops).2) ∧
  ∃ vals, forward true (length ops) ex_bridge (ex_state ops).1 (ex_state ops).2
          = Ok vals ∧
          size (ex_state ops).2 = Z.of_nat (length vals) ∧
          empty true (ex_state ops).1 (ex_state ops).2
          = Ok (size (ex_state ops).2 =? 0).
Proof.
  intros ops.
  assert (Hs : in_range 1000) by (by vm_compute).
  assert (Hfr : fresh_heap true ex_heap).
  { unfold fresh_heap, ex_heap, LinkedListNode_plain.
    repeat (apply map_Forall_insert_2; [by vm_compute|]).
    apply map_Forall_empty. }
  assert (Hrun : run true ex_bridge ops (LinkedList_new true ex_heap 1000 0)
                 = Ok ((ex_state ops).1, (ex_state ops).2))
    by (vm_compute; reflexivity).
  split_and!; [done|done|done|].
  by apply (size_counts_attached true ex_bridge ex_heap 1000 0 ops).
Defined.

(** ** Tactics for concrete heaps *)

Ltac solve_concrete :=
  repeat match goal with
    | |- _ ∧ _ => split
    | |- _ → _ => intros _
    | |- detached _ _ _ => eexists; split; [by vm_compute|by intros _]
    | |- is_list _ _ _ _ => unfold is_list
    | |- chain _ _ _ _ => simpl
    | |- link _ _ _ => split; by vm_compute
    | |- NoDup _ => apply (bool_decide_unpack _); by vm_compute
    | |- Forall _ _ => apply (bool_decide_unpack _); by vm_compute
    | |- _ ∉ _ => apply (bool_decide_unpack _); by vm_compute
    | |- _ ∈ _ => apply (bool_decide_unpack _); by vm_compute
    | |- in_range _ => by vm_compute
    | |- _ => by vm_compute
    end.

(** C3: [InsertBefore] of a detached node before an attached node is the
    rewiring [this.prev = target.prev; this.prev.next = this;
    this.next = target; target.prev = this], and the links of every other
    node stay as they were. *)
Theorem InsertBefore_rewires (check : bool) (h : heap) (s : Z) (l : list Z)
    (n target : Z) :
  is_list check h s l → target ∈ s :: l →
  detached check h n → n ∉ s :: l → n ≠ nullptr →
  ∃ h' p, get_prev h target = Some p ∧
          InsertBefore check h n target = Ok h' ∧
          get_prev h' n = Some p ∧ get_next h' p = Some n ∧
          get_next h' n = Some target ∧ get_prev h' target = Some n ∧
          (∀ x, x ≠ n → x ≠ p → get_next h' x = get_next h x) ∧
          (∀ x, x ≠ n → x ≠ target → get_prev h' x = get_prev h x) ∧
          (∀ x, x ≠ n → get_list_sentinel h' x = get_list_sentinel h x).
Proof.
  intros His Ht (nd & Hn & Hnull) Hnotin Hn0.
  destruct (is_list_node check _ _ _ _ His Ht)
    as (npos & Hpos & Hnxin & Hpvin & Hown).
  destruct (is_list_node check _ _ _ _ His Hpvin) as (np & Hp & _).
  pose proof (in_range_nonnull _ (is_list_range check _ _ _ _ His Ht)).
  pose proof (in_range_nonnull _ (is_list_range check _ _ _ _ His Hnxin)).
  pose proof (in_range_nonnull _ (is_list_range check _ _ _ _ His Hpvin)).
  assert (Hs0 : s ≠ 0).
  { apply in_range_nonnull, (is_list_range check h s l); [done|set_solver]. }
  destruct (InsertBefore_ok check h n target nd npos np)
    as (h' & Hins & Hnx & Hpv & Hls); try done.
  { intros ->. done. }
  { intros ->. done. }
  { intros Hck. split_and!; [by apply Hnull|done|]. by rewrite Hown. }
  exists h', (prev_ npos).
  assert (prev_ npos ≠ n) by (intros <-; done).
  assert (target ≠ n) by (intros ->; done).
  split_and!; try done.
  - apply get_prev_Some. eauto.
  - rewrite Hpv. by rewrite decide_True.
  - rewrite Hnx. rewrite decide_False, decide_True; done.
  - rewrite Hnx. by rewrite decide_True.
  - rewrite Hpv. rewrite decide_False, decide_True; done.
  - intros x ? ?. rewrite Hnx. rewrite !decide_False; done.
  - intros x ? ?. rewrite Hpv. rewrite !decide_False; done.
  - intros x ?. rewrite Hls. rewrite !decide_False; done.
Qed.

Lemma InsertBefore_rewires_witness :
  let h := (ex_state [PushBack 100; PushBack 300]).1 in
  is_list true h 1000 [108; 308] ∧ 308 ∈ [1000; 108; 308] ∧
  detached true h 208 ∧ (208 ∉ [1000; 108; 308]) ∧ 208 ≠ nullptr ∧
  ∃ h' p, get_prev h 308 = Some p ∧
          InsertBefore true h 208 308 = Ok h' ∧
          get_prev h' 208 = Some p ∧ get_next h' p = Some 208 ∧
          get_next h' 208 = Some 308 ∧ get_prev h' 308 = Some 208 ∧
          (∀ x, x ≠ 208 → x ≠ p → get_next h' x = get_next h x) ∧
          (∀ x, x ≠ 208 → x ≠ 308 → get_prev h' x = get_prev h x) ∧
          (∀ x, x ≠ 208 →
                get_list_sentinel h' x = get_list_sentinel h x).
Proof.
  intros h.
  assert (H1 : is_list true h 1000 [108; 308]) by solve_concrete.
  assert (H2 : 308 ∈ [1000; 108; 308]) by solve_concrete.
  assert (H3 : detached true h 208) by solve_concrete.
  assert (H4 : 208 ∉ [1000; 108; 308]) by solve_concrete.
  assert (H5 : 208 ≠ nullptr) by done.
  split_and!; [done..|].
  exact (InsertBefore_rewires true h 1000 [108; 308] 208 308 H1 H2 H3 H4 H5).
Defined.

(** C4: on a well-formed list the backward traversal from the last position
    to [begin()] yields the reverse of the forward traversal from [begin()]
    to [end()]. *)
Theorem backward_is_reverse (check : bool) (b : Bridge) (h : heap)
    (L : LinkedList) (l : list Z) :
  is_list check h (sentinel_ L) l →
  ∃ vals, forward check (length l) b h L = Ok vals ∧
          backward check (length l) b h L = Ok (rev vals).
Proof.
  intros His. exists (map (host_of b) l).
  split; [by apply forward_ok|by apply backward_ok].
Qed.

Lemma backward_is_reverse_witness :
  is_list true ex_abc.1 (sentinel_ ex_abc.2) [108; 208; 308] ∧
  ∃ vals, forward true 3 ex_bridge ex_abc.1 ex_abc.2 = Ok vals ∧
          backward true 3 ex_bridge ex_abc.1 ex_abc.2 = Ok (rev vals).
Proof.
  assert (H1 : is_list true ex_abc.1 (sentinel_ ex_abc.2) [108; 208; 308])
    by solve_concrete.
  split; [done|].
  exact (backward_is_reverse true ex_bridge ex_abc.1 ex_abc.2 _ H1).
Defined.

(** Every position between [begin()] and [end()] splits the list in the
    nodes before it and the nodes from it on. *)
Lemma is_list_position (check : bool) (h : heap) (s : Z) (l : list Z) (x : Z) :
  is_list check h s l → x ∈ s :: l →
  ∃ l1 l2, l = l1 ++ l2 ∧ x = default s (head l2).
Proof.
  intros _ [->|Hx]%elem_of_cons.
  - exists l, []. by rewrite app_nil_r.
  - apply list_elem_of_split in Hx as (l1 & l2 & ->). by exists l1, (x :: l2).
Qed.

(** C5: inserting a detached value at a valid position and erasing it again
    restores the size and the order of iteration. *)
Theorem insert_erase_roundtrip (check : bool) (b : Bridge) (h : heap)
    (L : LinkedList) (l : list Z) (pos : iterator) (v : Z) :
  is_list check h (sentinel_ L) l → size_ L = Z.of_nat (length l) →
  node_ pos ∈ sentinel_ L :: l →
  detached check h (NodeForHost b v) →
  NodeForHost b v ∉ sentinel_ L :: l →
  in_range (NodeForHost b v) → v ≠ nullptr →
  ∃ h1 L1 h2 L2,
    insert check b h L pos v = Ok (h1, L1) ∧
    erase check b h1 L1 v = Ok (h2, L2) ∧
    size L2 = size L ∧
    forward check (length l) b h L = Ok (map (host_of b) l) ∧
    forward check (length l) b h2 L2 = Ok (map (host_of b) l).
Proof.
  intros His Hsz Hpos Hdet Hnotin Hr Hv.
  destruct (is_list_position _ _ _ _ _ His Hpos) as (l1 & l2 & -> & Hp).
  destruct pos as [p]. simpl in Hp. subst p.
  destruct (insert_ok check b h L l1 l2 v) as (h1 & Hins & His1 & _);
    try done.
  pose proof His1 as (_ & Hnd1 & Hr1 & _).
  pose proof (NoDup_in_range_length _ Hnd1 Hr1) as Hlen.
  simpl in Hlen. rewrite !length_app in *. simpl in Hlen.
  set (L1 := mkList (sentinel_ L) ((size_ L + 1) mod size_modulus)) in *.
  assert (Hsz1 : size_ L1 = size_ L + 1).
  { unfold L1. simpl. rewrite Z.mod_small; lia. }
  destruct (erase_pos_ok check h1 L1 l1 l2 (NodeForHost b v))
    as (h2 & Her & His2 & _); [done|lia|].
  rewrite <- erase_as_erase_pos in Her by (by apply in_range_nonnull).
  eexists h1, L1, h2, _. split_and!; [done|done| | |].
  - unfold size. simpl. rewrite (Z.mod_small (size_ L + 1)) by lia.
    rewrite Z.mod_small; lia.
  - apply forward_ok; [done|]. by rewrite length_app.
  - apply forward_ok; [done|]. by rewrite length_app.
Qed.

Lemma insert_erase_roundtrip_witness :
  let h := (ex_state [PushBack 100; PushBack 300]).1 in
  let L := (ex_state [PushBack 100; PushBack 300]).2 in
  is_list true h (sentinel_ L) [108; 308] ∧ size_ L = 2 ∧
  node_ (mkIter 308) ∈ sentinel_ L :: [108; 308] ∧
  detached true h (NodeForHost ex_bridge 200) ∧
  (NodeForHost ex_bridge 200 ∉ sentinel_ L :: [108; 308]) ∧
  in_range (NodeForHost ex_bridge 200) ∧ 200 ≠ nullptr ∧
  ∃ h1 L1 h2 L2,
    insert true ex_bridge h L (mkIter 308) 200 = Ok (h1, L1) ∧
    erase true ex_bridge h1 L1 200 = Ok (h2, L2) ∧
    size L2 = size L ∧
    forward true 2 ex_bridge h L = Ok (map (host_of ex_bridge) [108; 308]) ∧
    forward true 2 ex_bridge h2 L2 = Ok (map (host_of ex_bridge) [108; 308]).
Proof.
  intros h L.
  assert (H1 : is_list true h (sentinel_ L) [108; 308]) by solve_concrete.
  assert (H2 : size_ L = Z.of_nat (length [108; 308])) by (by vm_compute).
  assert (H3 : node_ (mkIter 308) ∈ sentinel_ L :: [108; 308])
    by solve_concrete.
  assert (H4 : detached true h (NodeForHost ex_bridge 200))
    by solve_concrete.
  assert (H5 : NodeForHost ex_bridge 200 ∉ sentinel_ L :: [108; 308])
    by solve_concrete.
  assert (H6 : in_range (NodeForHost ex_bridge 200)) by solve_concrete.
  assert (H7 : 200 ≠ nullptr) by done.
  split_and!; [done..|].
  exact (insert_erase_roundtrip true ex_bridge h L [108; 308] (mkIter 308)
           200 H1 H2 H3 H4 H5 H6 H7).
Defined.

(** What the four compositions do to a well-formed list. *)
Lemma push_pop_effects (check : bool) (b : Bridge) (h : heap)
    (L : LinkedList) (l : list Z) (v : Z) :
  is_list check h (sentinel_ L) l → 0 < size_ L ∨ l = [] →
  (detached check h (NodeForHost b v) →
   NodeForHost b v ∉ sentinel_ L :: l →
   in_range (NodeForHost b v) → v ≠ nullptr →
   (∃ h' L', push_front check b h L v = Ok (h', L') ∧
             is_list check h' (sentinel_ L') (NodeForHost b v :: l)) ∧
   (∃ h' L', push_back check b h L v = Ok (h', L') ∧
             is_list check h' (sentinel_ L') (l ++ [NodeForHost b v]))) ∧
  (∀ x l', l = x :: l' →
     ∃ h' L', pop_front check h L = Ok (h', L') ∧
              is_list check h' (sentinel_ L') l') ∧
  (∀ x l', l = l' ++ [x] →
     ∃ h' L', pop_back check h L = Ok (h', L') ∧
              is_list check h' (sentinel_ L') l').
Proof.
  intros His Hsz. split_and!.
  - intros Hdet Hnotin Hr Hv. split.
    + unfold push_front. rewrite (begin_ok check _ _ _ His). simpl.
      destruct (insert_ok check b h L [] l v) as (h' & Hins & His' & _);
        try done.
      eexists h', _. split; [exact Hins|done].
    + unfold push_back. rewrite (end_ok check _ _ _ His). simpl.
      destruct (insert_ok check b h L l [] v) as (h' & Hins & His' & _);
        rewrite ?app_nil_r; try done.
      eexists h', _. split; [exact Hins|done].
  - intros x l' ->. destruct Hsz as [Hsz|?]; [|done].
    unfold pop_front. rewrite (begin_ok check _ _ _ His). simpl.
    destruct (erase_pos_ok check h L [] l' x) as (h' & Her & His' & _);
      try done.
    eexists h', _. split; [exact Her|done].
  - intros x l' ->. destruct Hsz as [Hsz|?]; [|by destruct l'].
    unfold pop_back. rewrite (end_ok check _ _ _ His). simpl.
    pose proof (iterator_decr_ok check h (sentinel_ L) l' x [] His) as Hd.
    simpl in Hd. rewrite Hd. simpl.
    destruct (erase_pos_ok check h L l' [] x) as (h' & Her & His' & _);
      try done.
    rewrite app_nil_r in His'.
    eexists h', _. split; [exact Her|done].
Qed.

(** C6: [push_front], [push_back], [pop_front] and [pop_back] are [insert]
    at [begin()], [insert] at [end()], [erase] at [begin()] and [erase] at
    the position before [end()]. *)
Theorem push_pop_compose (check : bool) (b : Bridge) (h : heap)
    (L : LinkedList) (value : Z) :
  push_front check b h L value
  = (pos ← begin check h L; insert check b h L pos value) ∧
  push_back check b h L value
  = (pos ← end_ check L; insert check b h L pos value) ∧
  pop_front check h L = (pos ← begin check h L; erase_pos check h L pos) ∧
  pop_back check h L
  = (e ← end_ check L; pos ← iterator_decr check h e;
     erase_pos check h L pos).
Proof. by split_and!. Qed.

(** With CHECKs enabled, erasing a node that is a sentinel or whose
    back-reference is not the sentinel of this list is fatal. *)
Lemma erase_checked_fatal (b : Bridge) (h : heap) (L : LinkedList) (v : Z)
    (nd : LinkedListNode) :
  h !! NodeForHost b v = Some nd →
  NodeForHost b v = list_sentinel_ nd ∨ list_sentinel_ nd ≠ sentinel_ L →
  erase true b h L v = Fatal ∧
  erase_pos true h L (mkIter (NodeForHost b v)) = Fatal.
Proof.
  intros Hnd Hbad.
  assert (He : erase true b h L v = Fatal).
  { unfold erase, if_check_is_on, BERRYDB_CHECK.
    rewrite (is_sentinel_Some _ _ _ Hnd), (load_Some _ _ _ Hnd). simpl.
    destruct (Z.eqb_spec (NodeForHost b v) (list_sentinel_ nd)) as [|Hne];
      [done|]. simpl.
    destruct (Z.eqb_spec (sentinel_ L) (list_sentinel_ nd)) as [Heq|];
      [|done].
    destruct Hbad; congruence. }
  split; [done|].
  destruct (decide (NodeForHost b v = nullptr)) as [Hn0|Hn0].
  - unfold erase_pos, BERRYDB_ASSUME. simpl.
    by rewrite (proj2 (Z.eqb_eq _ _) Hn0).
  - by rewrite <- (erase_as_erase_pos true b h L v Hn0).
Qed.

(** C7: [erase(pos)] and [erase(value)] of a node attached to this list
    detach it and decrement the size, and the other elements keep their
    order; with CHECKs enabled a sentinel node or a node whose back-reference
    is another sentinel is a fatal error. *)
Theorem erase_detaches (check : bool) (b : Bridge) (h : heap)
    (L : LinkedList) (l : list Z) (v : Z) :
  is_list check h (sentinel_ L) l → size_ L = Z.of_nat (length l) →
  NodeForHost b v ∈ l →
  (∃ h' L',
     erase_pos check h L (mkIter (NodeForHost b v)) = Ok (h', L') ∧
     erase check b h L v = Ok (h', L') ∧
     size L' = size L - 1 ∧
     is_list check h' (sentinel_ L')
       (filter (λ x, x ≠ NodeForHost b v) l) ∧
     (check = true →
      h' !! NodeForHost b v = Some (mkNode nullptr nullptr nullptr))) ∧
  (∀ (h0 : heap) (L0 : LinkedList) (v0 : Z) (nd : LinkedListNode),
     h0 !! NodeForHost b v0 = Some nd →
     NodeForHost b v0 = list_sentinel_ nd ∨
     list_sentinel_ nd ≠ sentinel_ L0 →
     erase true b h0 L0 v0 = Fatal ∧
     erase_pos true h0 L0 (mkIter (NodeForHost b v0)) = Fatal).
Proof.
  intros His Hsz Hin. split; [|apply erase_checked_fatal].
  pose proof Hin as (l1 & l2 & ->)%list_elem_of_split.
  pose proof His as (_ & Hnd & Hr & _).
  pose proof (NoDup_in_range_length _ Hnd Hr) as Hlen.
  apply NoDup_cons in Hnd as [_ Hnd].
  rewrite (filter_remove_NoDup _ _ _ Hnd).
  assert (Hn0 : NodeForHost b v ≠ nullptr).
  { apply in_range_nonnull, (is_list_range check h (sentinel_ L) _ _ His).
    set_solver. }
  simpl in Hlen. rewrite length_app in Hsz, Hlen. simpl in Hsz, Hlen.
  destruct (erase_pos_ok check h L l1 l2 (NodeForHost b v))
    as (h' & Her & His' & Hnull & _); [done|lia|].
  eexists h', _. split_and!; [done| |  |done|done].
  - by rewrite erase_as_erase_pos.
  - unfold size. simpl. rewrite Z.mod_small; lia.
Qed.

Lemma erase_detaches_witness :
  is_list true ex_abc.1 (sentinel_ ex_abc.2) [108; 208; 308] ∧
  size_ ex_abc.2 = 3 ∧ NodeForHost ex_bridge 200 ∈ [108; 208; 308] ∧
  (∃ h' L',
     erase_pos true ex_abc.1 ex_abc.2 (mkIter (NodeForHost ex_bridge 200))
     = Ok (h', L') ∧
     erase true ex_bridge ex_abc.1 ex_abc.2 200 = Ok (h', L') ∧
     size L' = size ex_abc.2 - 1 ∧
     is_list true h' (sentinel_ L')
       (filter (λ x, x ≠ NodeForHost ex_bridge 200) [108; 208; 308]) ∧
     (true = true →
      h' !! NodeForHost ex_bridge 200
      = Some (mkNode nullptr nullptr nullptr))) ∧
  (∀ (h0 : heap) (L0 : LinkedList) (v0 : Z) (nd : LinkedListNode),
     h0 !! NodeForHost ex_bridge v0 = Some nd →
     NodeForHost ex_bridge v0 = list_sentinel_ nd ∨
     list_sentinel_ nd ≠ sentinel_ L0 →
     erase true ex_bridge h0 L0 v0 = Fatal ∧
     erase_pos true h0 L0 (mkIter (NodeForHost ex_bridge v0)) = Fatal).
Proof.
  assert (H1 : is_list true ex_abc.1 (sentinel_ ex_abc.2) [108; 208; 308])
    by solve_concrete.
  assert (H2 : size_ ex_abc.2 = Z.of_nat (length [108; 208; 308]))
    by (by vm_compute).
  assert (H3 : NodeForHost ex_bridge 200 ∈ [108; 208; 308])
    by solve_concrete.
  split_and!; [done..| |];
    apply (erase_detaches true ex_bridge ex_abc.1 ex_abc.2 [108; 208; 308]
             200 H1 H2 H3).
Defined.

Lemma HostForNode_Ok_inv (check : bool) (b : Bridge) (h : heap)
    (node host : Z) :
  HostForNode check b h node = Ok host → node = NodeForHost b host.
Proof.
  unfold HostForNode.
  intros (? & ? & (? & ? & H)%bind_Ok_inv)%bind_Ok_inv.
  injection H as <-. unfold NodeForHost. lia.
Qed.

(** C9: for a value attached to the list, [erase(value)] and [erase(pos)]
    with [pos] positioned at that value return the same state. *)
Theorem erase_value_as_erase_pos (check : bool) (b : Bridge) (h : heap)
    (L : LinkedList) (l : list Z) (v : Z) (pos : iterator) :
  is_list check h (sentinel_ L) l → NodeForHost b v ∈ l →
  iterator_deref check b h pos = Ok v →
  erase check b h L v = erase_pos check h L pos.
Proof.
  intros His Hin Hpos. apply HostForNode_Ok_inv in Hpos.
  destruct pos as [p]. simpl in Hpos. subst p.
  apply erase_as_erase_pos.
  apply in_range_nonnull, (is_list_range check h (sentinel_ L) l); [done|].
  set_solver.
Qed.

Lemma erase_value_as_erase_pos_witness :
  is_list true ex_abc.1 (sentinel_ ex_abc.2) [108; 208; 308] ∧
  NodeForHost ex_bridge 200 ∈ [108; 208; 308] ∧
  iterator_deref true ex_bridge ex_abc.1 (mkIter 208) = Ok 200 ∧
  erase true ex_bridge ex_abc.1 ex_abc.2 200
  = erase_pos true ex_abc.1 ex_abc.2 (mkIter 208).
Proof.
  assert (H1 : is_list true ex_abc.1 (sentinel_ ex_abc.2) [108; 208; 308])
    by solve_concrete.
  assert (H2 : NodeForHost ex_bridge 200 ∈ [108; 208; 308])
    by solve_concrete.
  assert (H3 : iterator_deref true ex_bridge ex_abc.1 (mkIter 208) = Ok 200)
    by (by vm_compute).
  split_and!; [done..|].
  exact (erase_value_as_erase_pos true ex_bridge ex_abc.1 ex_abc.2
           [108; 208; 308] 200 (mkIter 208) H1 H2 H3).
Defined.


(** C2: move-constructing a list from a non-empty list gives the new list
    the size and the elements, in the same order, of the source, leaves the
    source empty with size 0 and, with CHECKs enabled, makes the
    back-reference of every moved node the sentinel of the new list. *)
Theorem move_nonempty (check : bool) (b : Bridge) (fuel : nat) (h : heap)
    (this : Z) (other : LinkedList) (l : list Z) (junk : Z) :
  is_list check h (sentinel_ other) l → l ≠ [] →
  h !! this = None → in_range this → (length l ≤ fuel)%nat →
  ∃ h' new_list moved_from,
    LinkedList_move check fuel h this other junk
    = Ok (h', new_list, moved_from) ∧
    sentinel_ new_list = this ∧ sentinel_ moved_from = sentinel_ other ∧
    size new_list = size other ∧
    forward check (length l) b h other = Ok (map (host_of b) l) ∧
    forward check (length l) b h' new_list = Ok (map (host_of b) l) ∧
    size moved_from = 0 ∧
    empty check h' moved_from = Ok true ∧
    forward check 0 b h' moved_from = Ok [] ∧
    (check = true →
     Forall (λ x, get_list_sentinel h' x = Some (sentinel_ new_list)) l).
Proof.
  intros His Hne Hd Hr Hf.
  destruct (LinkedList_move_nonempty check fuel h this other l junk)
    as (h' & Hmv & Hnew & Hold); try done.
  eexists h', _, _. split; [exact Hmv|]. simpl.
  split_and!; try done.
  - by apply forward_ok.
  - by apply (forward_ok check b h' (mkList this (size_ other)) l).
  - by rewrite (empty_ok check h' (mkList (sentinel_ other) 0) []).
  - by apply (forward_ok check b h' (mkList (sentinel_ other) 0) []).
  - intros Hck. destruct Hnew as (_ & _ & _ & Hown).
    specialize (Hown Hck). by apply Forall_cons in Hown as [_ Hown].
Qed.

Lemma move_nonempty_witness :
  is_list true ex_abc.1 (sentinel_ ex_abc.2) [108; 208; 308] ∧
  [108; 208; 308] ≠ [] ∧ ex_abc.1 !! 2000 = None ∧ in_range 2000 ∧
  (length [108; 208; 308] ≤ 3)%nat ∧
  ∃ h' new_list moved_from,
    LinkedList_move true 3 ex_abc.1 2000 ex_abc.2 0
    = Ok (h', new_list, moved_from) ∧
    sentinel_ new_list = 2000 ∧ sentinel_ moved_from = sentinel_ ex_abc.2 ∧
    size new_list = size ex_abc.2 ∧
    forward true (length [108; 208; 308]) ex_bridge ex_abc.1 ex_abc.2
    = Ok (map (host_of ex_bridge) [108; 208; 308]) ∧
    forward true (length [108; 208; 308]) ex_bridge h' new_list
    = Ok (map (host_of ex_bridge) [108; 208; 308]) ∧
    size moved_from = 0 ∧
    empty true h' moved_from = Ok true ∧
    forward true 0 ex_bridge h' moved_from = Ok [] ∧
    (true = true →
     Forall (λ x, get_list_sentinel h' x = Some (sentinel_ new_list))
       [108; 208; 308]).
Proof.
  assert (H1 : is_list true ex_abc.1 (sentinel_ ex_abc.2) [108; 208; 308])
    by solve_concrete.
  assert (H2 : [108; 208; 308] ≠ []) by done.
  assert (H3 : ex_abc.1 !! 2000 = None) by (by vm_compute).
  assert (H4 : in_range 2000) by (by vm_compute).
  assert (H5 : (length [108; 208; 308] ≤ 3)%nat) by (simpl; lia).
  split_and!; [done..|].
  exact (move_nonempty true ex_bridge 3 ex_abc.1 2000 ex_abc.2
           [108; 208; 308] 0 H1 H2 H3 H4 H5).
Defined.

(** C10: move-constructing from an empty list gives an empty destination
    (size 0, [begin() == end()], sentinel linked to itself) and leaves the
    source a well-formed empty list of size 0. *)
Theorem move_empty (check : bool) (fuel : nat) (h : heap) (this : Z)
    (other : LinkedList) (junk : Z) :
  is_list check h (sentinel_ other) [] → size_ other = 0 →
  h !! this = None → in_range this →
  ∃ h' new_list moved_from,
    LinkedList_move check fuel h this other junk
    = Ok (h', new_list, moved_from) ∧
    sentinel_ new_list = this ∧ sentinel_ moved_from = sentinel_ other ∧
    size new_list = 0 ∧
    begin check h' new_list = Ok (mkIter this) ∧
    end_ check new_list = Ok (mkIter this) ∧
    link h' this this ∧
    is_list check h' this [] ∧
    size moved_from = 0 ∧
    link h' (sentinel_ other) (sentinel_ other) ∧
    is_list check h' (sentinel_ other) [] ∧
    empty check h' moved_from = Ok true.
Proof.
  intros His Hsz Hd Hr.
  destruct (LinkedList_move_empty check fuel h this other junk)
    as (h' & Hmv & Hnew & Hold); try done.
  eexists h', _, _. split; [exact Hmv|]. simpl.
  split_and!; try done.
  - by rewrite (begin_ok check h' (mkList this (size_ other)) []).
  - by rewrite (end_ok check h' (mkList this (size_ other)) []).
  - by destruct Hnew as (? & _).
  - by destruct Hold as (? & _).
  - by rewrite (empty_ok check h' (mkList (sentinel_ other) 0) []).
Qed.

Lemma move_empty_witness :
  is_list true ex_empty.1 (sentinel_ ex_empty.2) [] ∧
  size_ ex_empty.2 = 0 ∧ ex_empty.1 !! 2000 = None ∧ in_range 2000 ∧
  ∃ h' new_list moved_from,
    LinkedList_move true 0 ex_empty.1 2000 ex_empty.2 0
    = Ok (h', new_list, moved_from) ∧
    sentinel_ new_list = 2000 ∧ sentinel_ moved_from = sentinel_ ex_empty.2 ∧
    size new_list = 0 ∧
    begin true h' new_list = Ok (mkIter 2000) ∧
    end_ true new_list = Ok (mkIter 2000) ∧
    link h' 2000 2000 ∧
    is_list true h' 2000 [] ∧
    size moved_from = 0 ∧
    link h' (sentinel_ ex_empty.2) (sentinel_ ex_empty.2) ∧
    is_list true h' (sentinel_ ex_empty.2) [] ∧
    empty true h' moved_from = Ok true.
Proof.
  assert (H1 : is_list true ex_empty.1 (sentinel_ ex_empty.2) [])
    by solve_concrete.
  assert (H2 : size_ ex_empty.2 = 0) by done.
  assert (H3 : ex_empty.1 !! 2000 = None) by (by vm_compute).
  assert (H4 : in_range 2000) by (by vm_compute).
  split_and!; [done..|].
  exact (move_empty true 0 ex_empty.1 2000 ex_empty.2 0 H1 H2 H3 H4).
Defined.

(** C8: two lists that link an embedder through two different node fields
    are independent.  Inserting a host into list 1 and erasing a host from
    list 1 leave every node of list 2 untouched, so list 2 keeps its elements
    and their positions. *)
Theorem two_lists_independent (check : bool) (b1 b2 : Bridge) (h : heap)
    (L1 L2 : LinkedList) (l1 l2 : list Z) (pos : iterator) (v w : Z) :
  is_list check h (sentinel_ L1) l1 → size_ L1 = Z.of_nat (length l1) →
  is_list check h (sentinel_ L2) l2 →
  (∀ x, x ∈ sentinel_ L1 :: l1 → x ∉ sentinel_ L2 :: l2) →
  node_ pos ∈ sentinel_ L1 :: l1 →
  detached check h (NodeForHost b1 v) → in_range (NodeForHost b1 v) →
  v ≠ nullptr →
  NodeForHost b1 v ∉ sentinel_ L1 :: l1 →
  NodeForHost b1 v ∉ sentinel_ L2 :: l2 →
  NodeForHost b1 w ∈ l1 →
  (∃ h' L1',
     insert check b1 h L1 pos v = Ok (h', L1') ∧
     is_list check h' (sentinel_ L2) l2 ∧
     (∀ x, x ∈ sentinel_ L2 :: l2 → h' !! x = h !! x) ∧
     (NodeForHost b2 v ∈ l2 →
      h' !! NodeForHost b2 v = h !! NodeForHost b2 v) ∧
     forward check (length l2) b2 h' L2 = forward check (length l2) b2 h L2 ∧
     forward check (length l2) b2 h L2 = Ok (map (host_of b2) l2)) ∧
  (∃ h' L1',
     erase check b1 h L1 w = Ok (h', L1') ∧
     is_list check h' (sentinel_ L2) l2 ∧
     (∀ x, x ∈ sentinel_ L2 :: l2 → h' !! x = h !! x) ∧
     (NodeForHost b2 w ∈ l2 →
      h' !! NodeForHost b2 w = h !! NodeForHost b2 w) ∧
     forward check (length l2) b2 h' L2 = forward check (length l2) b2 h L2 ∧
     forward check (length l2) b2 h L2 = Ok (map (host_of b2) l2)).
Proof.
  intros His1 Hsz His2 Hdisj Hpos Hdet Hr Hv Hn1 Hn2 Hw.
  assert (Hfwd : ∀ h', is_list check h' (sentinel_ L2) l2 →
            forward check (length l2) b2 h' L2 = Ok (map (host_of b2) l2)).
  { intros h' His. by apply forward_ok. }
  assert (Hdisj' : ∀ x, x ∈ sentinel_ L2 :: l2 → x ∉ sentinel_ L1 :: l1).
  { intros x Hx2 Hx1. by apply (Hdisj x). }
  split.
  - destruct (is_list_position _ _ _ _ _ His1 Hpos) as (la & lb & -> & Hp).
    destruct pos as [p]. simpl in Hp. subst p.
    destruct (insert_ok check b1 h L1 la lb v) as (h' & Hins & _ & Hfr);
      try done.
    assert (Hsame : ∀ x, x ∈ sentinel_ L2 :: l2 → h' !! x = h !! x).
    { intros x Hx. specialize (Hdisj' x Hx). apply Hfr.
      - by intros ->.
      - intros ->. apply Hdisj'.
        pose proof (default_last_elem (sentinel_ L1) la). set_solver.
      - intros ->. apply Hdisj'.
        pose proof (default_head_elem (sentinel_ L1) lb). set_solver. }
    assert (His2' : is_list check h' (sentinel_ L2) l2)
      by (by apply (is_list_frame check h)).
    eexists h', _. split_and!; [done|done|done| | |by apply Hfwd].
    + intros Hin. apply Hsame. set_solver.
    + by rewrite !Hfwd.
  - pose proof Hw as (la & lb & ->)%list_elem_of_split.
    assert (Hn0 : NodeForHost b1 w ≠ nullptr).
    { apply in_range_nonnull,
        (is_list_range check h (sentinel_ L1) _ _ His1). set_solver. }
    destruct (erase_pos_ok check h L1 la lb (NodeForHost b1 w))
      as (h' & Her & _ & _ & _ & Hfr); [done| |].
    { rewrite Hsz, length_app. simpl. lia. }
    rewrite <- erase_as_erase_pos in Her by done.
    assert (Hsame : ∀ x, x ∈ sentinel_ L2 :: l2 → h' !! x = h !! x).
    { intros x Hx. specialize (Hdisj' x Hx). apply Hfr.
      - intros ->. apply Hdisj'. set_solver.
      - intros ->. apply Hdisj'.
        pose proof (default_last_elem (sentinel_ L1) la). set_solver.
      - intros ->. apply Hdisj'.
        pose proof (default_head_elem (sentinel_ L1) lb). set_solver. }
    assert (His2' : is_list check h' (sentinel_ L2) l2)
      by (by apply (is_list_frame check h)).
    eexists h', _. split_and!; [done|done|done| | |by apply Hfwd].
    + intros Hin. apply Hsame. set_solver.
    + by rewrite !Hfwd.
Qed.

Lemma two_lists_independent_witness :
  let h := ex_two_lists.1.1 in
  let L1 := ex_two_lists.1.2 in
  let L2 := ex_two_lists.2 in
  is_list true h (sentinel_ L1) [208] ∧ size_ L1 = 1 ∧
  is_list true h (sentinel_ L2) [132; 232] ∧
  (∀ x, x ∈ sentinel_ L1 :: [208] → x ∉ sentinel_ L2 :: [132; 232]) ∧
  node_ (mkIter 208) ∈ sentinel_ L1 :: [208] ∧
  detached true h (NodeForHost ex_bridge 100) ∧
  in_range (NodeForHost ex_bridge 100) ∧ 100 ≠ nullptr ∧
  (NodeForHost ex_bridge 100 ∉ sentinel_ L1 :: [208]) ∧
  (NodeForHost ex_bridge 100 ∉ sentinel_ L2 :: [132; 232]) ∧
  NodeForHost ex_bridge 200 ∈ [208] ∧
  (∃ h' L1',
     insert true ex_bridge h L1 (mkIter 208) 100 = Ok (h', L1') ∧
     is_list true h' (sentinel_ L2) [132; 232] ∧
     (∀ x, x ∈ sentinel_ L2 :: [132; 232] → h' !! x = h !! x) ∧
     (NodeForHost ex_bridge2 100 ∈ [132; 232] →
      h' !! NodeForHost ex_bridge2 100 = h !! NodeForHost ex_bridge2 100) ∧
     forward true (length [132; 232]) ex_bridge2 h' L2
     = forward true (length [132; 232]) ex_bridge2 h L2 ∧
     forward true (length [132; 232]) ex_bridge2 h L2
     = Ok (map (host_of ex_bridge2) [132; 232])) ∧
  (∃ h' L1',
     erase true ex_bridge h L1 200 = Ok (h', L1') ∧
     is_list true h' (sentinel_ L2) [132; 232] ∧
     (∀ x, x ∈ sentinel_ L2 :: [132; 232] → h' !! x = h !! x) ∧
     (NodeForHost ex_bridge2 200 ∈ [132; 232] →
      h' !! NodeForHost ex_bridge2 200 = h !! NodeForHost ex_bridge2 200) ∧
     forward true (length [132; 232]) ex_bridge2 h' L2
     = forward true (length [132; 232]) ex_bridge2 h L2 ∧
     forward true (length [132; 232]) ex_bridge2 h L2
     = Ok (map (host_of ex_bridge2) [132; 232])).
Proof.
  intros h L1 L2.
  assert (H1 : is_list true h (sentinel_ L1) [208]) by solve_concrete.
  assert (H2 : size_ L1 = Z.of_nat (length [208])) by (by vm_compute).
  assert (H3 : is_list true h (sentinel_ L2) [132; 232]) by solve_concrete.
  assert (H4 : ∀ x, x ∈ sentinel_ L1 :: [208] →
                    x ∉ sentinel_ L2 :: [132; 232]).
  { apply (proj1 (Forall_forall
                    (λ x, x ∉ sentinel_ L2 :: [132; 232]) _)).
    apply (bool_decide_unpack _). by vm_compute. }
  assert (H5 : node_ (mkIter 208) ∈ sentinel_ L1 :: [208]) by solve_concrete.
  assert (H6 : detached true h (NodeForHost ex_bridge 100))
    by solve_concrete.
  assert (H7 : in_range (NodeForHost ex_bridge 100)) by solve_concrete.
  assert (H8 : 100 ≠ nullptr) by done.
  assert (H9 : NodeForHost ex_bridge 100 ∉ sentinel_ L1 :: [208])
    by solve_concrete.
  assert (H10 : NodeForHost ex_bridge 100 ∉ sentinel_ L2 :: [132; 232])
    by solve_concrete.
  assert (H11 : NodeForHost ex_bridge 200 ∈ [208]) by solve_concrete.
  split_and!; [done..| |];
    apply (two_lists_independent true ex_bridge ex_bridge2 h L1 L2 [208]
             [132; 232] (mkIter 208) 100 200 H1 H2 H3 H4 H5 H6 H7 H8 H9
             H10 H11).
Defined.

(** * Further properties of the code *)

(** ** LinkedListNode *)

(** X1: [next()] only returns a node that is not null and whose [prev_]
    points back, in every heap and in both builds. *)
Theorem next_Ok_link (check : bool) (h : heap) (a b : Z) :
  next check h a = Ok b → link h a b ∧ b ≠ nullptr.
Proof.
  unfold next. intros (nd & Ha%load_Ok_inv & H)%bind_Ok_inv.
  apply bind_Ok_inv in H as (? & ? & H).
  apply bind_Ok_inv in H as (? & Hn%ASSUME_Ok_inv & H).
  apply bind_Ok_inv in H as (nn & Hb%load_Ok_inv & H).
  apply bind_Ok_inv in H as (? & Hp%ASSUME_Ok_inv & H).
  injection H as <-.
  apply negb_true_iff, Z.eqb_neq in Hn. apply Z.eqb_eq in Hp.
  split; [split|done]; [apply get_next_Some|apply get_prev_Some]; eauto.
Qed.

Lemma next_Ok_link_witness :
  next true ex_abc.1 108 = Ok 208 ∧ link ex_abc.1 108 208 ∧ 208 ≠ nullptr.
Proof.
  assert (H : next true ex_abc.1 108 = Ok 208) by (by vm_compute).
  split; [done|]. exact (next_Ok_link true ex_abc.1 108 208 H).
Defined.

(** X2: [prev()] only returns a node that is not null and whose [next_]
    points back. *)
Theorem prev_Ok_link (check : bool) (h : heap) (a b : Z) :
  prev check h b = Ok a → link h a b ∧ a ≠ nullptr.
Proof.
  unfold prev. intros (nd & Hb%load_Ok_inv & H)%bind_Ok_inv.
  apply bind_Ok_inv in H as (? & ? & H).
  apply bind_Ok_inv in H as (? & Hn%ASSUME_Ok_inv & H).
  apply bind_Ok_inv in H as (pn & Ha%load_Ok_inv & H).
  apply bind_Ok_inv in H as (? & Hp%ASSUME_Ok_inv & H).
  injection H as <-.
  apply negb_true_iff, Z.eqb_neq in Hn. apply Z.eqb_eq in Hp.
  split; [split|done]; [apply get_next_Some|apply get_prev_Some]; eauto.
Qed.

Lemma prev_Ok_link_witness :
  prev true ex_abc.1 1000 = Ok 308 ∧ link ex_abc.1 308 1000 ∧ 308 ≠ nullptr.
Proof.
  assert (H : prev true ex_abc.1 1000 = Ok 308) by (by vm_compute).
  split; [done|]. exact (prev_Ok_link true ex_abc.1 308 1000 H).
Defined.

(** X3: with CHECKs enabled [next()] and [prev()] of a node that is in no
    list are fatal. *)
Theorem next_prev_detached_fatal (h : heap) (a : Z) (nd : LinkedListNode) :
  h !! a = Some nd → list_sentinel_ nd = nullptr →
  next true h a = Fatal ∧ prev true h a = Fatal.
Proof.
  intros Ha Hls. unfold next, prev, if_check_is_on, BERRYDB_CHECK.
  rewrite (load_Some _ _ _ Ha). simpl. rewrite Hls. done.
Qed.

Lemma next_prev_detached_fatal_witness :
  ex_heap !! 108 = Some (mkNode 0 0 0) ∧
  list_sentinel_ (mkNode 0 0 0) = nullptr ∧
  next true ex_heap 108 = Fatal ∧ prev true ex_heap 108 = Fatal.
Proof.
  assert (H1 : ex_heap !! 108 = Some (mkNode 0 0 0)) by (by vm_compute).
  assert (H2 : list_sentinel_ (mkNode 0 0 0) = nullptr) by done.
  split_and!; [done|done|..];
    apply (next_prev_detached_fatal ex_heap 108 (mkNode 0 0 0) H1 H2).
Defined.

Lemma InsertBefore_check_fails (h : heap) (n pos : Z)
    (nd npos : LinkedListNode) :
  h !! n = Some nd → h !! pos = Some npos →
  list_sentinel_ nd ≠ nullptr ∨ next_ nd ≠ nullptr ∨ prev_ nd ≠ nullptr ∨
  list_sentinel_ npos = nullptr →
  InsertBefore true h n pos = Fatal.
Proof.
  intros Hn Hpos Hbad.
  unfold InsertBefore, BERRYDB_ASSUME, if_check_is_on, BERRYDB_CHECK, nullptr
    in *.
  destruct (Z.eqb_spec pos 0); [done|]. simpl.
  rewrite (is_sentinel_Some _ _ _ Hn), (load_Some _ _ _ Hn),
    (load_Some _ _ _ Hpos). simpl.
  destruct (Z.eqb_spec n (list_sentinel_ nd)); [done|]. simpl.
  destruct (Z.eqb_spec (list_sentinel_ nd) 0); [|done]. simpl.
  destruct (Z.eqb_spec (next_ nd) 0); [|done]. simpl.
  destruct (Z.eqb_spec (prev_ nd) 0); [|done]. simpl.
  destruct (Z.eqb_spec (list_sentinel_ npos) 0); [done|]. simpl.
  exfalso. destruct Hbad as [|[|[|]]]; congruence.
Qed.

(** X4: with CHECKs enabled [InsertBefore] is fatal when the node is already
    in a list or is a sentinel (its back-reference is set), when its links
    are not null, or when the target is in no list. *)
Theorem InsertBefore_checked_fatal (h : heap) (n pos : Z)
    (nd npos : LinkedListNode) :
  h !! n = Some nd → h !! pos = Some npos →
  list_sentinel_ nd ≠ nullptr ∨ next_ nd ≠ nullptr ∨ prev_ nd ≠ nullptr ∨
  list_sentinel_ npos = nullptr →
  InsertBefore true h n pos = Fatal.
Proof. apply InsertBefore_check_fails. Qed.

Lemma InsertBefore_checked_fatal_witness :
  ex_abc.1 !! 208 = Some (mkNode 308 108 1000) ∧
  ex_abc.1 !! 1000 = Some (mkNode 108 308 1000) ∧
  (list_sentinel_ (mkNode 308 108 1000) ≠ nullptr ∨
   next_ (mkNode 308 108 1000) ≠ nullptr ∨
   prev_ (mkNode 308 108 1000) ≠ nullptr ∨
   list_sentinel_ (mkNode 108 308 1000) = nullptr) ∧
  InsertBefore true ex_abc.1 208 1000 = Fatal.
Proof.
  assert (H1 : ex_abc.1 !! 208 = Some (mkNode 308 108 1000))
    by (by vm_compute).
  assert (H2 : ex_abc.1 !! 1000 = Some (mkNode 108 308 1000))
    by (by vm_compute).
  assert (H3 : list_sentinel_ (mkNode 308 108 1000) ≠ nullptr ∨
               next_ (mkNode 308 108 1000) ≠ nullptr ∨
               prev_ (mkNode 308 108 1000) ≠ nullptr ∨
               list_sentinel_ (mkNode 108 308 1000) = nullptr)
    by (by left).
  split_and!; [done..|].
  exact (InsertBefore_checked_fatal ex_abc.1 208 1000 _ _ H1 H2 H3).
Defined.

(** X5: with CHECKs enabled [Remove] of a sentinel or of a node that is in
    no list is fatal. *)
Theorem Remove_checked_fatal (h : heap) (n : Z) (nd : LinkedListNode) :
  h !! n = Some nd →
  n = list_sentinel_ nd ∨ list_sentinel_ nd = nullptr →
  Remove true h n = Fatal.
Proof.
  intros Hn Hbad.
  unfold Remove, if_check_is_on, BERRYDB_CHECK, nullptr in *.
  rewrite (is_sentinel_Some _ _ _ Hn), (load_Some _ _ _ Hn). simpl.
  destruct (Z.eqb_spec n (list_sentinel_ nd)); [done|]. simpl.
  destruct (Z.eqb_spec (list_sentinel_ nd) 0); [done|].
  exfalso. destruct Hbad; congruence.
Qed.

Lemma Remove_checked_fatal_witness :
  ex_abc.1 !! 1000 = Some (mkNode 108 308 1000) ∧
  (1000 = list_sentinel_ (mkNode 108 308 1000) ∨
   list_sentinel_ (mkNode 108 308 1000) = nullptr) ∧
  Remove true ex_abc.1 1000 = Fatal.
Proof.
  assert (H1 : ex_abc.1 !! 1000 = Some (mkNode 108 308 1000))
    by (by vm_compute).
  assert (H2 : 1000 = list_sentinel_ (mkNode 108 308 1000) ∨
               list_sentinel_ (mkNode 108 308 1000) = nullptr)
    by (by left).
  split_and!; [done..|].
  exact (Remove_checked_fatal ex_abc.1 1000 _ H1 H2).
Defined.

(** X6: with CHECKs enabled, on a well-formed list [list_sentinel()] of every
    node is the sentinel of the list and [is_sentinel()] holds for the
    sentinel alone. *)
Theorem is_sentinel_iff (h : heap) (s : Z) (l : list Z) (x : Z) :
  is_list true h s l → x ∈ s :: l →
  list_sentinel h x = Ok s ∧ is_sentinel h x = Ok (bool_decide (x = s)).
Proof.
  intros His Hx.
  destruct (is_list_node true _ _ _ _ His Hx) as (nd & Hnd & _ & _ & Ho).
  specialize (Ho eq_refl).
  unfold list_sentinel. rewrite (load_Some _ _ _ Hnd),
    (is_sentinel_Some _ _ _ Hnd). simpl. rewrite Ho. split; [done|].
  f_equal. case_bool_decide; [by apply Z.eqb_eq|by apply Z.eqb_neq].
Qed.

Lemma is_sentinel_iff_witness :
  is_list true ex_abc.1 1000 [108; 208; 308] ∧ 208 ∈ [1000; 108; 208; 308] ∧
  list_sentinel ex_abc.1 208 = Ok 1000 ∧
  is_sentinel ex_abc.1 208 = Ok (bool_decide (208 = 1000)).
Proof.
  assert (H1 : is_list true ex_abc.1 1000 [108; 208; 308]) by solve_concrete.
  assert (H2 : 208 ∈ [1000; 108; 208; 308]) by solve_concrete.
  split_and!; [done..| |];
    apply (is_sentinel_iff ex_abc.1 1000 [108; 208; 308] 208 H1 H2).
Defined.

(** ** LinkedListBridge *)

(** X7: the two functions of the bridge are inverse to each other.
    [HostForNode] of the node of a host returns the host, unless CHECKs are
    enabled and the node is a sentinel, which is fatal; and a host that
    [HostForNode] returns has the given node. *)
Theorem bridge_roundtrip (check : bool) (b : Bridge) (h : heap) (v : Z)
    (nd : LinkedListNode) :
  h !! NodeForHost b v = Some nd →
  (check = true → NodeForHost b v ≠ list_sentinel_ nd →
   HostForNode check b h (NodeForHost b v) = Ok v) ∧
  (check = true → NodeForHost b v = list_sentinel_ nd →
   HostForNode check b h (NodeForHost b v) = Fatal) ∧
  (check = false → HostForNode check b h (NodeForHost b v) = Ok v) ∧
  (∀ n v', HostForNode check b h n = Ok v' → NodeForHost b v' = n).
Proof.
  intros Hnd.
  assert (E : NodeForHost b v - node_offset b = v)
    by (unfold NodeForHost; lia).
  split_and!.
  - intros Hck Hne. rewrite (HostForNode_ok check b h _ nd Hnd); [|done].
    by rewrite E.
  - intros -> Heq. unfold HostForNode, if_check_is_on, BERRYDB_CHECK.
    rewrite (is_sentinel_Some _ _ _ Hnd).
    by rewrite (proj2 (Z.eqb_eq _ _) Heq).
  - intros Hck. rewrite (HostForNode_ok check b h _ nd Hnd); [|congruence].
    by rewrite E.
  - intros n v' H. symmetry. by eapply HostForNode_Ok_inv.
Qed.

Lemma bridge_roundtrip_witness :
  ex_abc.1 !! NodeForHost ex_bridge 200 = Some (mkNode 308 108 1000) ∧
  HostForNode true ex_bridge ex_abc.1 (NodeForHost ex_bridge 200) = Ok 200.
Proof.
  assert (H1 : ex_abc.1 !! NodeForHost ex_bridge 200
               = Some (mkNode 308 108 1000)) by (by vm_compute).
  split; [done|].
  destruct (bridge_roundtrip true ex_bridge ex_abc.1 200 _ H1) as (Hr & _).
  apply Hr; [done|by vm_compute].
Defined.

(** ** LinkedList *)

Section MoreListOps.

Variable check : bool.
Implicit Types (h : heap) (l : list Z) (L : LinkedList) (b : Bridge).

Lemma front_ok b h L x l :
  is_list check h (sentinel_ L) (x :: l) →
  front check b h L = Ok (host_of b x).
Proof.
  intros His. unfold front. rewrite (begin_ok check _ _ _ His). simpl.
  apply (iterator_deref_ok check b h (sentinel_ L) (x :: l)); [done|].
  set_solver.
Qed.

Lemma back_ok b h L l x :
  is_list check h (sentinel_ L) (l ++ [x]) →
  back check b h L = Ok (host_of b x).
Proof.
  intros His. unfold back. rewrite (end_ok check _ _ _ His). simpl.
  pose proof (iterator_decr_ok check h (sentinel_ L) l x [] His) as Hd.
  simpl in Hd. rewrite Hd. simpl.
  apply (iterator_deref_ok check b h (sentinel_ L) (l ++ [x])); [done|].
  set_solver.
Qed.

Lemma host_of_NodeForHost b v : host_of b (NodeForHost b v) = v.
Proof. unfold host_of, NodeForHost. lia. Qed.

End MoreListOps.

(** X8: on a non-empty well-formed list [front()] is the host of the first
    node and [back()] the host of the last one. *)
Theorem front_back_nonempty (check : bool) (b : Bridge) (h : heap)
    (L : LinkedList) (l : list Z) (x y : Z) :
  is_list check h (sentinel_ L) l → head l = Some x → last l = Some y →
  front check b h L = Ok (host_of b x) ∧ back check b h L = Ok (host_of b y).
Proof.
  intros His Hx Hy. split.
  - destruct l as [|x' l]; [done|]. injection Hx as ->.
    by apply (front_ok check b h L x l).
  - destruct l as [|y' l] using rev_ind; [done|].
    rewrite last_snoc in Hy. injection Hy as ->.
    by apply (back_ok check b h L l y).
Qed.

Lemma front_back_nonempty_witness :
  is_list true ex_abc.1 (sentinel_ ex_abc.2) [108; 208; 308] ∧
  head [108; 208; 308] = Some 108 ∧ last [108; 208; 308] = Some 308 ∧
  front true ex_bridge ex_abc.1 ex_abc.2 = Ok (host_of ex_bridge 108) ∧
  back true ex_bridge ex_abc.1 ex_abc.2 = Ok (host_of ex_bridge 308).
Proof.
  assert (H1 : is_list true ex_abc.1 (sentinel_ ex_abc.2) [108; 208; 308])
    by solve_concrete.
  assert (H2 : head [108; 208; 308] = Some 108) by done.
  assert (H3 : last [108; 208; 308] = Some 308) by done.
  split_and!; [done..| |];
    apply (front_back_nonempty true ex_bridge ex_abc.1 ex_abc.2
             [108; 208; 308] 108 308 H1 H2 H3).
Defined.

(** X9: on an empty list [front()] and [back()] are fatal with CHECKs
    enabled; without CHECKs they return, unnoticed, the address that the
    bridge computes from the sentinel. *)
Theorem front_back_empty (check : bool) (b : Bridge) (h : heap)
    (L : LinkedList) :
  is_list check h (sentinel_ L) [] →
  front check b h L
  = (if check then Fatal else Ok (host_of b (sentinel_ L))) ∧
  back check b h L
  = (if check then Fatal else Ok (host_of b (sentinel_ L))).
Proof.
  intros His.
  assert (Hs : sentinel_ L ∈ [sentinel_ L]) by set_solver.
  destruct (is_list_node check _ _ _ _ His Hs) as (nd & Hnd & _ & _ & Ho).
  pose proof (is_list_prev_at check h (sentinel_ L) [] [] His) as Hp.
  simpl in Hp.
  unfold front, back. rewrite (begin_ok check _ _ _ His),
    (end_ok check _ _ _ His). simpl.
  unfold iterator_decr, iterator_deref, HostForNode, if_check_is_on,
    BERRYDB_CHECK, BERRYDB_ASSUME. simpl. rewrite Hp. simpl.
  rewrite (is_sentinel_Some _ _ _ Hnd).
  assert (E : (sentinel_ L =? NodeForHost b (sentinel_ L - node_offset b))
              = true) by (apply Z.eqb_eq; unfold NodeForHost; lia).
  revert Ho. destruct check; intros Ho.
  - rewrite (Ho eq_refl), Z.eqb_refl. done.
  - simpl. by rewrite E.
Qed.

Lemma front_back_empty_witness :
  is_list true ex_empty.1 (sentinel_ ex_empty.2) [] ∧
  front true ex_bridge ex_empty.1 ex_empty.2 = Fatal ∧
  back true ex_bridge ex_empty.1 ex_empty.2 = Fatal.
Proof.
  assert (H1 : is_list true ex_empty.1 (sentinel_ ex_empty.2) [])
    by solve_concrete.
  split; [done|].
  exact (front_back_empty true ex_bridge ex_empty.1 ex_empty.2 H1).
Defined.

Section Results.

Variable check : bool.
Implicit Types (h : heap) (l : list Z) (L : LinkedList) (b : Bridge).

(** On a list whose [size_] is right, [insert] and [erase] change it by one
    without wrapping around. *)
Lemma insert_result b h L l1 l2 v :
  is_list check h (sentinel_ L) (l1 ++ l2) →
  size_ L = Z.of_nat (length (l1 ++ l2)) →
  detached check h (NodeForHost b v) →
  NodeForHost b v ∉ sentinel_ L :: l1 ++ l2 →
  in_range (NodeForHost b v) → v ≠ nullptr →
  ∃ h', insert check b h L (mkIter (default (sentinel_ L) (head l2))) v
        = Ok (h', mkList (sentinel_ L) (size_ L + 1)) ∧
        is_list check h' (sentinel_ L) (l1 ++ NodeForHost b v :: l2).
Proof.
  intros His Hsz Hdet Hnotin Hr Hv.
  destruct (insert_ok check b h L l1 l2 v) as (h' & Hins & His' & _);
    try done.
  pose proof His' as (_ & Hnd & Hr' & _).
  pose proof (NoDup_in_range_length _ Hnd Hr') as Hlen.
  simpl in Hlen. rewrite !length_app in *. simpl in Hlen.
  exists h'. split; [|done]. rewrite Hins. repeat f_equal.
  rewrite Z.mod_small; lia.
Qed.

Lemma erase_pos_result h L l1 l2 n :
  is_list check h (sentinel_ L) (l1 ++ n :: l2) →
  size_ L = Z.of_nat (length (l1 ++ n :: l2)) →
  ∃ h', erase_pos check h L (mkIter n)
        = Ok (h', mkList (sentinel_ L) (size_ L - 1)) ∧
        is_list check h' (sentinel_ L) (l1 ++ l2) ∧
        (check = true → h' !! n = Some (mkNode nullptr nullptr nullptr)) ∧
        is_Some (h' !! n).
Proof.
  intros His Hsz.
  pose proof His as (_ & Hnd & Hr & _).
  pose proof (NoDup_in_range_length _ Hnd Hr) as Hlen.
  simpl in Hlen. rewrite !length_app in *. simpl in Hlen, Hsz.
  destruct (erase_pos_ok check h L l1 l2 n)
    as (h' & Her & His' & Hnull & Hsome & _); [done|lia|].
  exists h'. split_and!; try done. rewrite Her. repeat f_equal.
  rewrite Z.mod_small; lia.
Qed.

End Results.

(** X10: [insert(pos, value)] of a detached value puts it immediately before
    [pos]: the size grows by one and the traversal yields the elements before
    [pos], the value, and the elements from [pos] on. *)
Theorem insert_places_before (check : bool) (b : Bridge) (h : heap)
    (L : LinkedList) (l1 l2 : list Z) (v : Z) :
  is_list check h (sentinel_ L) (l1 ++ l2) →
  size_ L = Z.of_nat (length (l1 ++ l2)) →
  detached check h (NodeForHost b v) →
  NodeForHost b v ∉ sentinel_ L :: l1 ++ l2 →
  in_range (NodeForHost b v) → v ≠ nullptr →
  ∃ h' L',
    insert check b h L (mkIter (default (sentinel_ L) (head l2))) v
    = Ok (h', L') ∧
    size L' = size L + 1 ∧
    forward check (S (length (l1 ++ l2))) b h' L'
    = Ok (map (host_of b) l1 ++ v :: map (host_of b) l2).
Proof.
  intros His Hsz Hdet Hnotin Hr Hv.
  destruct (insert_result check b h L l1 l2 v) as (h' & Hins & His');
    try done.
  eexists h', _. split; [exact Hins|]. split; [done|].
  rewrite (forward_ok check b h' _ (l1 ++ NodeForHost b v :: l2)).
  - by rewrite map_app, map_cons, host_of_NodeForHost.
  - done.
  - rewrite !length_app. simpl. lia.
Qed.

Lemma insert_places_before_witness :
  let h := (ex_state [PushBack 100; PushBack 300]).1 in
  let L := (ex_state [PushBack 100; PushBack 300]).2 in
  is_list true h (sentinel_ L) ([108] ++ [308]) ∧
  size_ L = Z.of_nat (length ([108] ++ [308])) ∧
  detached true h (NodeForHost ex_bridge 200) ∧
  (NodeForHost ex_bridge 200 ∉ sentinel_ L :: [108] ++ [308]) ∧
  in_range (NodeForHost ex_bridge 200) ∧ 200 ≠ nullptr ∧
  ∃ h' L',
    insert true ex_bridge h L
      (mkIter (default (sentinel_ L) (head [308]))) 200 = Ok (h', L') ∧
    size L' = size L + 1 ∧
    forward true (S (length ([108] ++ [308]))) ex_bridge h' L'
    = Ok (map (host_of ex_bridge) [108] ++ 200 :: map (host_of ex_bridge) [308]).
Proof.
  intros h L.
  assert (H1 : is_list true h (sentinel_ L) ([108] ++ [308]))
    by solve_concrete.
  assert (H2 : size_ L = Z.of_nat (length ([108] ++ [308])))
    by (by vm_compute).
  assert (H3 : detached true h (NodeForHost ex_bridge 200))
    by solve_concrete.
  assert (H4 : NodeForHost ex_bridge 200 ∉ sentinel_ L :: [108] ++ [308])
    by solve_concrete.
  assert (H5 : in_range (NodeForHost ex_bridge 200)) by solve_concrete.
  assert (H6 : 200 ≠ nullptr) by done.
  split_and!; [done..|].
  exact (insert_places_before true ex_bridge h L [108] [308] 200
           H1 H2 H3 H4 H5 H6).
Defined.

(** X11: after [push_back(value)] the value is [back()] and the last element
    of the traversal; after [push_front(value)] it is [front()] and the first
    element. *)
Theorem push_observed (check : bool) (b : Bridge) (h : heap)
    (L : LinkedList) (l : list Z) (v : Z) :
  is_list check h (sentinel_ L) l → size_ L = Z.of_nat (length l) →
  detached check h (NodeForHost b v) →
  NodeForHost b v ∉ sentinel_ L :: l →
  in_range (NodeForHost b v) → v ≠ nullptr →
  (∃ h' L', push_back check b h L v = Ok (h', L') ∧
            back check b h' L' = Ok v ∧ size L' = size L + 1 ∧
            forward check (S (length l)) b h' L'
            = Ok (map (host_of b) l ++ [v])) ∧
  (∃ h' L', push_front check b h L v = Ok (h', L') ∧
            front check b h' L' = Ok v ∧ size L' = size L + 1 ∧
            forward check (S (length l)) b h' L'
            = Ok (v :: map (host_of b) l)).
Proof.
  intros His Hsz Hdet Hnotin Hr Hv. split.
  - destruct (insert_result check b h L l [] v) as (h' & Hins & His');
      rewrite ?app_nil_r; try done.
    simpl in Hins.
    eexists h', _. split_and!.
    + unfold push_back. rewrite (end_ok check _ _ _ His). simpl. exact Hins.
    + rewrite (back_ok check b h' _ l (NodeForHost b v)); [|done].
      by rewrite host_of_NodeForHost.
    + done.
    + rewrite (forward_ok check b h' _ (l ++ [NodeForHost b v])).
      * by rewrite map_app, map_cons, host_of_NodeForHost.
      * done.
      * rewrite length_app. simpl. lia.
  - destruct (insert_result check b h L [] l v) as (h' & Hins & His');
      try done.
    simpl in Hins, His'.
    eexists h', _. split_and!.
    + unfold push_front. rewrite (begin_ok check _ _ _ His). simpl.
      exact Hins.
    + rewrite (front_ok check b h' _ (NodeForHost b v) l); [|done].
      by rewrite host_of_NodeForHost.
    + done.
    + rewrite (forward_ok check b h' _ (NodeForHost b v :: l)).
      * by rewrite map_cons, host_of_NodeForHost.
      * done.
      * simpl. lia.
Qed.

Lemma push_observed_witness :
  let h := (ex_state [PushBack 100; PushBack 300]).1 in
  let L := (ex_state [PushBack 100; PushBack 300]).2 in
  is_list true h (sentinel_ L) [108; 308] ∧
  size_ L = Z.of_nat (length [108; 308]) ∧
  detached true h (NodeForHost ex_bridge 200) ∧
  (NodeForHost ex_bridge 200 ∉ sentinel_ L :: [108; 308]) ∧
  in_range (NodeForHost ex_bridge 200) ∧ 200 ≠ nullptr ∧
  (∃ h' L', push_back true ex_bridge h L 200 = Ok (h', L') ∧
            back true ex_bridge h' L' = Ok 200 ∧ size L' = size L + 1 ∧
            forward true (S (length [108; 308])) ex_bridge h' L'
            = Ok (map (host_of ex_bridge) [108; 308] ++ [200])) ∧
  (∃ h' L', push_front true ex_bridge h L 200 = Ok (h', L') ∧
            front true ex_bridge h' L' = Ok 200 ∧ size L' = size L + 1 ∧
            forward true (S (length [108; 308])) ex_bridge h' L'
            = Ok (200 :: map (host_of ex_bridge) [108; 308])).
Proof.
  intros h L.
  assert (H1 : is_list true h (sentinel_ L) [108; 308]) by solve_concrete.
  assert (H2 : size_ L = Z.of_nat (length [108; 308])) by (by vm_compute).
  assert (H3 : detached true h (NodeForHost ex_bridge 200))
    by solve_concrete.
  assert (H4 : NodeForHost ex_bridge 200 ∉ sentinel_ L :: [108; 308])
    by solve_concrete.
  assert (H5 : in_range (NodeForHost ex_bridge 200)) by solve_concrete.
  assert (H6 : 200 ≠ nullptr) by done.
  split_and!; [done..| |];
    apply (push_observed true ex_bridge h L [108; 308] 200
             H1 H2 H3 H4 H5 H6).
Defined.

(** X12: on a non-empty list [pop_front()] removes the first element and
    [pop_back()] the last one; the size drops by one and the other elements
    keep their order. *)
Theorem pop_removes_ends (check : bool) (b : Bridge) (h : heap)
    (L : LinkedList) (l : list Z) :
  is_list check h (sentinel_ L) l → size_ L = Z.of_nat (length l) →
  l ≠ [] →
  (∃ h' L', pop_front check h L = Ok (h', L') ∧ size L' = size L - 1 ∧
            forward check (length l) b h' L'
            = Ok (map (host_of b) (tail l))) ∧
  (∃ h' L', pop_back check h L = Ok (h', L') ∧ size L' = size L - 1 ∧
            forward check (length l) b h' L'
            = Ok (map (host_of b) (removelast l))).
Proof.
  intros His Hsz Hne. split.
  - destruct l as [|x l]; [done|].
    destruct (erase_pos_result check h L [] l x) as (h' & Her & His' & _);
      try done.
    eexists h', _. split_and!.
    + unfold pop_front. rewrite (begin_ok check _ _ _ His). simpl.
      exact Her.
    + done.
    + simpl. apply forward_ok; [done|]. simpl. lia.
  - destruct l as [|y l _] using rev_ind; [done|].
    destruct (erase_pos_result check h L l [] y) as (h' & Her & His' & _);
      try done.
    rewrite app_nil_r in His'.
    eexists h', _. split_and!.
    + unfold pop_back. rewrite (end_ok check _ _ _ His). simpl.
      pose proof (iterator_decr_ok check h (sentinel_ L) l y [] His) as Hd.
      simpl in Hd. rewrite Hd. simpl. exact Her.
    + done.
    + rewrite removelast_last. apply forward_ok; [done|].
      rewrite length_app. simpl. lia.
Qed.

Lemma pop_removes_ends_witness :
  is_list true ex_abc.1 (sentinel_ ex_abc.2) [108; 208; 308] ∧
  size_ ex_abc.2 = Z.of_nat (length [108; 208; 308]) ∧
  [108; 208; 308] ≠ [] ∧
  (∃ h' L', pop_front true ex_abc.1 ex_abc.2 = Ok (h', L') ∧
            size L' = size ex_abc.2 - 1 ∧
            forward true (length [108; 208; 308]) ex_bridge h' L'
            = Ok (map (host_of ex_bridge) (tail [108; 208; 308]))) ∧
  (∃ h' L', pop_back true ex_abc.1 ex_abc.2 = Ok (h', L') ∧
            size L' = size ex_abc.2 - 1 ∧
            forward true (length [108; 208; 308]) ex_bridge h' L'
            = Ok (map (host_of ex_bridge) (removelast [108; 208; 308]))).
Proof.
  assert (H1 : is_list true ex_abc.1 (sentinel_ ex_abc.2) [108; 208; 308])
    by solve_concrete.
  assert (H2 : size_ ex_abc.2 = Z.of_nat (length [108; 208; 308]))
    by (by vm_compute).
  assert (H3 : [108; 208; 308] ≠ []) by done.
  split_and!; [done..| |];
    apply (pop_removes_ends true ex_bridge ex_abc.1 ex_abc.2
             [108; 208; 308] H1 H2 H3).
Defined.

(** X13: [pop_front()] and [pop_back()] on an empty list never succeed: they
    are fatal with CHECKs enabled and undefined behaviour without. *)
Theorem pop_empty_fails (check : bool) (h : heap) (L : LinkedList) :
  is_list check h (sentinel_ L) [] → size_ L = 0 →
  pop_front check h L = (if check then Fatal else Undefined) ∧
  pop_back check h L = (if check then Fatal else Undefined).
Proof.
  intros His Hsz.
  assert (Hs : sentinel_ L ∈ [sentinel_ L]) by set_solver.
  pose proof (in_range_nonnull _ (is_list_range check _ _ _ _ His Hs)) as H0.
  pose proof (is_list_prev_at check h (sentinel_ L) [] [] His) as Hp.
  simpl in Hp.
  pose proof His as ([Hn Hpv] & _ & _ & Hls).
  apply get_next_Some in Hn as ([nx pv ls] & Hnd & Hnx).
  apply get_prev_Some in Hpv as (nd' & Hnd' & Hpv).
  rewrite Hnd in Hnd'. injection Hnd' as <-. simpl in Hnx, Hpv. subst nx pv.
  assert (Ho : check = true → ls = sentinel_ L).
  { intros Hck. specialize (Hls Hck). rewrite Forall_singleton in Hls.
    unfold get_list_sentinel in Hls. rewrite Hnd in Hls. by injection Hls. }
  unfold pop_front, pop_back.
  rewrite (begin_ok check _ _ _ His), (end_ok check _ _ _ His). simpl.
  unfold iterator_decr. simpl. rewrite Hp. simpl.
  unfold erase_pos, Remove, if_check_is_on, BERRYDB_CHECK, BERRYDB_ASSUME,
    nullptr. simpl.
  rewrite Hsz. revert Ho. destruct check; intros Ho.
  - rewrite (Ho eq_refl) in Hnd. by exec.
  - by exec.
Qed.

Lemma pop_empty_fails_witness :
  is_list true ex_empty.1 (sentinel_ ex_empty.2) [] ∧
  size_ ex_empty.2 = 0 ∧
  pop_front true ex_empty.1 ex_empty.2 = Fatal ∧
  pop_back true ex_empty.1 ex_empty.2 = Fatal.
Proof.
  assert (H1 : is_list true ex_empty.1 (sentinel_ ex_empty.2) [])
    by solve_concrete.
  assert (H2 : size_ ex_empty.2 = 0) by done.
  split_and!; [done..| |];
    apply (pop_empty_fails true ex_empty.1 ex_empty.2 H1 H2).
Defined.

(** X14: with CHECKs enabled, inserting a value that is already in the list
    is fatal, at every position. *)
Theorem insert_attached_fatal (b : Bridge) (h : heap) (L : LinkedList)
    (l : list Z) (pos : iterator) (v : Z) :
  is_list true h (sentinel_ L) l → NodeForHost b v ∈ l →
  node_ pos ∈ sentinel_ L :: l →
  insert true b h L pos v = Fatal.
Proof.
  intros His Hin Hpos.
  assert (Hin' : NodeForHost b v ∈ sentinel_ L :: l) by set_solver.
  destruct (is_list_node true _ _ _ _ His Hin') as (nd & Hnd & _ & _ & Ho).
  destruct (is_list_node true _ _ _ _ His Hpos) as (npos & Hnpos & _).
  specialize (Ho eq_refl).
  pose proof (in_range_nonnull _ (is_list_range true _ _ _ _ His Hin')) as H0.
  assert (Hs : sentinel_ L ∈ sentinel_ L :: l) by set_solver.
  pose proof (in_range_nonnull _ (is_list_range true _ _ _ _ His Hs)) as Hs0.
  assert (Hns : NodeForHost b v ≠ sentinel_ L).
  { destruct His as (_ & Hnd' & _). apply NoDup_cons in Hnd' as [Hx _].
    by intros Heq; rewrite Heq in Hin. }
  unfold insert, BERRYDB_ASSUME, nullptr.
  destruct (Z.eqb_spec v 0) as [|Hv]; [done|]. simpl.
  rewrite (proj2 (Z.eqb_neq _ _) H0). simpl.
  rewrite (HostForNode_ok true b h _ nd Hnd) by (by rewrite Ho). simpl.
  assert (E : (v =? NodeForHost b v - node_offset b) = true)
    by (apply Z.eqb_eq; unfold NodeForHost; lia).
  rewrite E. simpl.
  rewrite (InsertBefore_check_fails h _ _ nd npos Hnd Hnpos); [done|].
  left. rewrite Ho. done.
Qed.

Lemma insert_attached_fatal_witness :
  is_list true ex_abc.1 (sentinel_ ex_abc.2) [108; 208; 308] ∧
  NodeForHost ex_bridge 200 ∈ [108; 208; 308] ∧
  node_ (mkIter 1000) ∈ sentinel_ ex_abc.2 :: [108; 208; 308] ∧
  insert true ex_bridge ex_abc.1 ex_abc.2 (mkIter 1000) 200 = Fatal.
Proof.
  assert (H1 : is_list true ex_abc.1 (sentinel_ ex_abc.2) [108; 208; 308])
    by solve_concrete.
  assert (H2 : NodeForHost ex_bridge 200 ∈ [108; 208; 308])
    by solve_concrete.
  assert (H3 : node_ (mkIter 1000) ∈ sentinel_ ex_abc.2 :: [108; 208; 308])
    by solve_concrete.
  split_and!; [done..|].
  exact (insert_attached_fatal ex_bridge ex_abc.1 ex_abc.2 [108; 208; 308]
           (mkIter 1000) 200 H1 H2 H3).
Defined.

(** ** LinkedList::iterator *)

(** X15: with CHECKs enabled the iterator refuses to leave the list:
    incrementing or dereferencing [end()] and decrementing [begin()] are
    fatal, in the prefix and in the postfix form. *)
Theorem iterator_bounds_fatal (b : Bridge) (h : heap) (L : LinkedList)
    (l : list Z) :
  is_list true h (sentinel_ L) l →
  let last := mkIter (sentinel_ L) in
  let first := mkIter (default (sentinel_ L) (head l)) in
  begin true h L = Ok first ∧ end_ true L = Ok last ∧
  iterator_incr true h last = Fatal ∧
  iterator_post_incr true h last = Fatal ∧
  iterator_deref true b h last = Fatal ∧
  iterator_decr true h first = Fatal ∧
  iterator_post_decr true h first = Fatal.
Proof.
  intros His last first.
  assert (Hs : sentinel_ L ∈ sentinel_ L :: l) by set_solver.
  assert (Hsen : is_sentinel h (sentinel_ L) = Ok true).
  { destruct (is_list_node true _ _ _ _ His Hs) as (nd & Hnd & _ & _ & Ho).
    rewrite (is_sentinel_Some _ _ _ Hnd), (Ho eq_refl).
    by rewrite Z.eqb_refl. }
  pose proof (is_list_prev_at true h (sentinel_ L) [] l His) as Hp.
  simpl in Hp.
  split_and!.
  - by apply begin_ok.
  - by apply (end_ok true h L l).
  - unfold iterator_incr, if_check_is_on. simpl. by rewrite Hsen.
  - unfold iterator_post_incr, if_check_is_on. simpl. by rewrite Hsen.
  - unfold iterator_deref, HostForNode, if_check_is_on. simpl.
    by rewrite Hsen.
  - unfold iterator_decr, if_check_is_on. simpl. rewrite Hp. simpl.
    by rewrite Hsen.
  - unfold iterator_post_decr, if_check_is_on. simpl. rewrite Hp. simpl.
    by rewrite Hsen.
Qed.

Lemma iterator_bounds_fatal_witness :
  is_list true ex_abc.1 (sentinel_ ex_abc.2) [108; 208; 308] ∧
  iterator_incr true ex_abc.1 (mkIter 1000) = Fatal ∧
  iterator_decr true ex_abc.1 (mkIter 108) = Fatal.
Proof.
  assert (H1 : is_list true ex_abc.1 (sentinel_ ex_abc.2) [108; 208; 308])
    by solve_concrete.
  split; [done|].
  pose proof (iterator_bounds_fatal ex_bridge ex_abc.1 ex_abc.2
                [108; 208; 308] H1) as (_ & _ & Hi & _ & _ & Hd & _).
  split; [exact Hi|exact Hd].
Defined.

(** X16: without CHECKs the chain is circular for the iterator too:
    incrementing [end()] gives [begin()] and decrementing [begin()] gives
    [end()], with no error. *)
Theorem iterator_wraps_unchecked (h : heap) (L : LinkedList) (l : list Z) :
  is_list false h (sentinel_ L) l →
  ∃ first last,
    begin false h L = Ok first ∧ end_ false L = Ok last ∧
    iterator_incr false h last = Ok first ∧
    iterator_decr false h first = Ok last.
Proof.
  intros His.
  exists (mkIter (default (sentinel_ L) (head l))), (mkIter (sentinel_ L)).
  split_and!.
  - by apply begin_ok.
  - by apply (end_ok false h L l).
  - unfold iterator_incr, if_check_is_on. simpl.
    by rewrite (is_list_next_sentinel false h _ l His).
  - unfold iterator_decr, if_check_is_on. simpl.
    pose proof (is_list_prev_at false h (sentinel_ L) [] l His) as Hp.
    simpl in Hp. by rewrite Hp.
Qed.

Lemma iterator_wraps_unchecked_witness :
  let st := ex_state_unchecked [PushBack 100; PushBack 200] in
  is_list false st.1 (sentinel_ st.2) [108; 208] ∧
  ∃ first last,
    begin false st.1 st.2 = Ok first ∧ end_ false st.2 = Ok last ∧
    iterator_incr false st.1 last = Ok first ∧
    iterator_decr false st.1 first = Ok last.
Proof.
  intros st.
  assert (H1 : is_list false st.1 (sentinel_ st.2) [108; 208]).
  { split_and!; [simpl; split_and!; by vm_compute| | |done].
    - apply (bool_decide_unpack _). by vm_compute.
    - apply (bool_decide_unpack _). by vm_compute. }
  split; [done|].
  exact (iterator_wraps_unchecked st.1 st.2 [108; 208] H1).
Defined.

(** X17: on an element, [++] moves to the next position and [--] from there
    comes back; the postfix forms move the same way and return the position
    they started from. *)
Theorem iterator_incr_decr (check : bool) (h : heap) (s : Z)
    (l1 l2 : list Z) (x : Z) :
  is_list check h s (l1 ++ x :: l2) →
  let it := mkIter x in
  let succ := mkIter (default s (head l2)) in
  iterator_incr check h it = Ok succ ∧
  iterator_decr check h succ = Ok it ∧
  iterator_post_incr check h it = Ok (it, succ) ∧
  iterator_post_decr check h succ = Ok (succ, it).
Proof.
  intros His it succ.
  pose proof (iterator_incr_ok check h s l1 x l2 His) as Hi.
  pose proof (iterator_decr_ok check h s l1 x l2 His) as Hd.
  assert (Hx0 : x ≠ 0).
  { apply in_range_nonnull, (is_list_range check h s _ _ His). set_solver. }
  assert (Hy0 : default s (head l2) ≠ 0).
  { apply in_range_nonnull, (is_list_range check h s _ _ His).
    pose proof (default_head_elem s l2). set_solver. }
  split_and!; [done|done| |].
  - unfold iterator_post_incr. unfold iterator_incr in Hi. simpl in *.
    apply bind_Ok_inv in Hi as (u & Hu & Hi). rewrite Hu. simpl.
    apply bind_Ok_inv in Hi as (n & Hn & Hi). rewrite Hn. simpl.
    rewrite (iterator_new_ok check x Hx0). simpl. by injection Hi as ->.
  - unfold iterator_post_decr. unfold iterator_decr in Hd. simpl in *.
    apply bind_Ok_inv in Hd as (u & Hu & Hd). rewrite Hu. simpl.
    apply bind_Ok_inv in Hd as (n & Hn & Hd). rewrite Hn. simpl.
    rewrite (iterator_new_ok check _ Hy0). simpl. by injection Hd as ->.
Qed.

Lemma iterator_incr_decr_witness :
  is_list true ex_abc.1 1000 ([108] ++ 208 :: [308]) ∧
  iterator_incr true ex_abc.1 (mkIter 208) = Ok (mkIter 308) ∧
  iterator_decr true ex_abc.1 (mkIter 308) = Ok (mkIter 208) ∧
  iterator_post_incr true ex_abc.1 (mkIter 208)
  = Ok (mkIter 208, mkIter 308) ∧
  iterator_post_decr true ex_abc.1 (mkIter 308)
  = Ok (mkIter 308, mkIter 208).
Proof.
  assert (H1 : is_list true ex_abc.1 1000 ([108] ++ 208 :: [308]))
    by solve_concrete.
  split; [done|].
  exact (iterator_incr_decr true ex_abc.1 1000 [108] [308] 208 H1).
Defined.



(** X19: erasing a value and inserting it again before its former successor
    restores the size and the order of iteration. *)
Theorem erase_insert_roundtrip (check : bool) (b : Bridge) (h : heap)
    (L : LinkedList) (l1 l2 : list Z) (v : Z) :
  is_list check h (sentinel_ L) (l1 ++ NodeForHost b v :: l2) →
  size_ L = Z.of_nat (length (l1 ++ NodeForHost b v :: l2)) →
  v ≠ nullptr →
  ∃ h1 L1 h2 L2,
    erase check b h L v = Ok (h1, L1) ∧
    insert check b h1 L1 (mkIter (default (sentinel_ L) (head l2))) v
    = Ok (h2, L2) ∧
    size L2 = size L ∧
    forward check (length (l1 ++ NodeForHost b v :: l2)) b h L
    = Ok (map (host_of b) (l1 ++ NodeForHost b v :: l2)) ∧
    forward check (length (l1 ++ NodeForHost b v :: l2)) b h2 L2
    = Ok (map (host_of b) (l1 ++ NodeForHost b v :: l2)).
Proof.
  intros His Hsz Hv.
  assert (Hin : NodeForHost b v ∈ sentinel_ L :: l1 ++ NodeForHost b v :: l2)
    by set_solver.
  pose proof (is_list_range check _ _ _ _ His Hin) as Hr.
  pose proof His as (_ & Hnd & _).
  rewrite app_comm_cons, <- Permutation_middle in Hnd.
  apply NoDup_cons in Hnd as [Hnotin _].
  destruct (erase_pos_result check h L l1 l2 (NodeForHost b v))
    as (h1 & Her & His1 & Hnull & [nd1 Hnd1]); try done.
  rewrite <- erase_as_erase_pos in Her by (by apply in_range_nonnull).
  set (L1 := mkList (sentinel_ L) (size_ L - 1)) in *.
  destruct (insert_result check b h1 L1 l1 l2 v) as (h2 & Hins & His2);
    try done.
  { unfold L1. simpl. rewrite Hsz, !length_app. simpl. lia. }
  { exists nd1. split; [done|]. intros Hck.
    rewrite (Hnull Hck) in Hnd1. by injection Hnd1. }
  eexists h1, L1, h2, _. split_and!; [exact Her|exact Hins| | |].
  - unfold size, L1. simpl. lia.
  - by apply forward_ok.
  - by apply forward_ok.
Qed.

Lemma erase_insert_roundtrip_witness :
  is_list true ex_abc.1 (sentinel_ ex_abc.2)
    ([108] ++ NodeForHost ex_bridge 200 :: [308]) ∧
  size_ ex_abc.2
  = Z.of_nat (length ([108] ++ NodeForHost ex_bridge 200 :: [308])) ∧
  200 ≠ nullptr ∧
  ∃ h1 L1 h2 L2,
    erase true ex_bridge ex_abc.1 ex_abc.2 200 = Ok (h1, L1) ∧
    insert true ex_bridge h1 L1
      (mkIter (default (sentinel_ ex_abc.2) (head [308]))) 200
    = Ok (h2, L2) ∧
    size L2 = size ex_abc.2 ∧
    forward true (length ([108] ++ NodeForHost ex_bridge 200 :: [308]))
      ex_bridge ex_abc.1 ex_abc.2
    = Ok (map (host_of ex_bridge)
            ([108] ++ NodeForHost ex_bridge 200 :: [308])) ∧
    forward true (length ([108] ++ NodeForHost ex_bridge 200 :: [308]))
      ex_bridge h2 L2
    = Ok (map (host_of ex_bridge)
            ([108] ++ NodeForHost ex_bridge 200 :: [308])).
Proof.
  assert (H1 : is_list true ex_abc.1 (sentinel_ ex_abc.2)
                 ([108] ++ NodeForHost ex_bridge 200 :: [308]))
    by solve_concrete.
  assert (H2 : size_ ex_abc.2
               = Z.of_nat (length ([108] ++ NodeForHost ex_bridge 200
                                     :: [308]))) by (by vm_compute).
  assert (H3 : 200 ≠ nullptr) by done.
  split_and!; [done..|].
  exact (erase_insert_roundtrip true ex_bridge ex_abc.1 ex_abc.2 [108] [308]
           200 H1 H2 H3).
Defined.

(** ** Sequences of operations *)

Lemma fold_abs_step_length (b : Bridge) (ops : list op) (l : list Z) :
  (length (fold_left (abs_step b) ops l) ≤ length l + length ops)%nat.
Proof.
  revert l. induction ops as [|o ops IH]; intros l; simpl; [lia|].
  pose proof (IH (abs_step b l o)). pose proof (abs_step_length b l o). lia.
Qed.

Lemma run_list_inv_abs (check : bool) (b : Bridge) (ops : list op)
    (h : heap) (L : LinkedList) (l : list Z) (h' : heap) (L' : LinkedList) :
  list_inv check h L l →
  (check = false → valid_ops b (sentinel_ L) l ops) →
  run check b ops (h, L) = Ok (h', L') →
  list_inv check h' L' (fold_left (abs_step b) ops l).
Proof.
  revert h L l. induction ops as [|o ops IH]; intros h L l Hinv Hvalid Hrun.
  - simpl in Hrun. by injection Hrun as <- <-.
  - simpl in Hrun. apply bind_Ok_inv in Hrun as ([h1 L1] & Hstep & Hrun).
    destruct (step_list_inv check b h L l o h1 L1) as [Hinv1 Hs1];
      [done| |done|].
    { intros Hck. by apply Hvalid. }
    simpl. apply (IH h1 L1 _ Hinv1); [|done].
    intros Hck. rewrite Hs1. by apply Hvalid.
Qed.

(** X20: a list refines a sequence.  After any run on a fresh list the
    traversal yields the hosts of the sequence obtained by appending for
    [push_back], prepending for [push_front] and deleting for [erase], and
    [size()] is its length. *)
Theorem run_refines_sequence (check : bool) (b : Bridge) (h0 : heap)
    (s junk : Z) (ops : list op) (h : heap) (L : LinkedList) :
  in_range s → fresh_heap check h0 →
  (check = false → valid_ops b s [] ops) →
  run check b ops (LinkedList_new check h0 s junk) = Ok (h, L) →
  forward check (length ops) b h L = Ok (map (host_of b) (abs_run b ops)) ∧
  size L = Z.of_nat (length (abs_run b ops)).
Proof.
  intros Hs Hfr Hvalid Hrun.
  pose proof (list_inv_new check h0 s junk Hs Hfr) as Hinv.
  destruct (LinkedList_new check h0 s junk) as [h1 L1] eqn:Hnew.
  assert (Hs1 : sentinel_ L1 = s).
  { unfold LinkedList_new in Hnew. by injection Hnew as <- <-. }
  simpl in Hinv.
  pose proof (run_list_inv_abs check b ops h1 L1 [] h L Hinv) as Hinv'.
  destruct Hinv' as (His & Hsz & _); [by rewrite Hs1|done|].
  split; [|done].
  apply forward_ok; [done|].
  pose proof (fold_abs_step_length b ops []). simpl in *. done.
Qed.

Lemma run_refines_sequence_witness :
  let ops := [PushBack 100; PushFront 200; PushBack 300; Erase 100] in
  in_range 1000 ∧ fresh_heap true ex_heap ∧
  run true ex_bridge ops (LinkedList_new true ex_heap 1000 0)
  = Ok ((ex_state ops).1, (ex_state ops).2) ∧
  abs_run ex_bridge ops = [208; 308] ∧
  forward true (length ops) ex_bridge (ex_state ops).1 (ex_state ops).2
  = Ok (map (host_of ex_bridge) (abs_run ex_bridge ops)) ∧
  size (ex_state ops).2 = Z.of_nat (length (abs_run ex_bridge ops)).
Proof.
  intros ops.
  assert (Hs : in_range 1000) by (by vm_compute).
  assert (Hfr : fresh_heap true ex_heap).
  { unfold fresh_heap, ex_heap, LinkedListNode_plain.
    repeat (apply map_Forall_insert_2; [by vm_compute|]).
    apply map_Forall_empty. }
  assert (Hrun : run true ex_bridge ops (LinkedList_new true ex_heap 1000 0)
                 = Ok ((ex_state ops).1, (ex_state ops).2))
    by (vm_compute; reflexivity).
  assert (Hv : true = false → valid_ops ex_bridge 1000 [] ops) by done.
  pose proof (run_refines_sequence true ex_bridge ex_heap 1000 0 ops _ _
                Hs Hfr Hv Hrun) as [Hf Hsz].
  split_and!; [done|done|done|by vm_compute|done|done].
Defined.

(** X21: a sequence that respects the documented preconditions, on values
    that are not null and whose nodes are allocated, runs to its end in both
    builds: no CHECK fires and no behaviour is undefined. *)
Theorem valid_sequences_run (check : bool) (b : Bridge) (h0 : heap)
    (s junk : Z) (ops : list op) :
  in_range s → fresh_heap check h0 → runnable_ops b h0 s [] ops →
  ∃ h L, run check b ops (LinkedList_new check h0 s junk) = Ok (h, L).
Proof.
  intros Hs Hfr Hrun.
  destruct (run_total_new check b h0 s junk ops Hs Hfr Hrun) as [[h L] H].
  by exists h, L.
Qed.

Lemma valid_sequences_run_witness :
  let ops := [PushBack 100; PushFront 200; Erase 100] in
  in_range 1000 ∧ fresh_heap false ex_heap_unchecked ∧
  runnable_ops ex_bridge ex_heap_unchecked 1000 [] ops ∧
  ∃ h L, run false ex_bridge ops
           (LinkedList_new false ex_heap_unchecked 1000 0) = Ok (h, L).
Proof.
  intros ops.
  assert (Hs : in_range 1000) by (by vm_compute).
  assert (Hfr : fresh_heap false ex_heap_unchecked).
  { unfold fresh_heap, ex_heap_unchecked, LinkedListNode_plain.
    repeat (apply map_Forall_insert_2; [by vm_compute|]).
    apply map_Forall_empty. }
  assert (Hrun : runnable_ops ex_bridge ex_heap_unchecked 1000 [] ops).
  { simpl. split_and!; try done; try (by eexists; vm_compute);
      apply (bool_decide_unpack _); by vm_compute. }
  split_and!; [done..|].
  exact (valid_sequences_run false ex_bridge ex_heap_unchecked 1000 0 ops
           Hs Hfr Hrun).
Defined.

Lemma insert_checked_valid (b : Bridge) (h : heap) (L : LinkedList)
    (l : list Z) (pos : iterator) (v : Z) (r : heap * LinkedList) :
  is_list true h (sentinel_ L) l → insert true b h L pos v = Ok r →
  NodeForHost b v ∉ sentinel_ L :: l.
Proof.
  intros His Hrun Hin.
  destruct (insert_Ok_inv true _ _ _ _ _ _ Hrun) as (_ & _ & nd & Hnd & Hnull).
  destruct (is_list_node true _ _ _ _ His Hin) as (nd' & Hnd' & _ & _ & Ho).
  rewrite Hnd in Hnd'. injection Hnd' as <-.
  rewrite (Hnull eq_refl) in Ho. simpl in Ho.
  assert (Hs : sentinel_ L ∈ sentinel_ L :: l) by set_solver.
  pose proof (in_range_nonnull _ (is_list_range true _ _ _ _ His Hs)).
  specialize (Ho eq_refl). unfold nullptr in *. congruence.
Qed.

Lemma erase_checked_valid (b : Bridge) (h : heap) (L : LinkedList)
    (l : list Z) (v : Z) (r : heap * LinkedList) :
  list_inv true h L l → erase true b h L v = Ok r → NodeForHost b v ∈ l.
Proof.
  intros (His & _ & Hall) Hrun.
  destruct (erase_Ok_inv true _ _ _ _ _ eq_refl Hrun)
    as (nd & Hnd & Hls & Hns).
  destruct (decide (NodeForHost b v ∈ sentinel_ L :: l)) as [Hi|Ho];
    [set_solver|].
  destruct (Hall _ _ Hnd) as [_ Hnull]. rewrite Hnull in Hls by done.
  simpl in Hls.
  assert (Hs : sentinel_ L ∈ sentinel_ L :: l) by set_solver.
  pose proof (in_range_nonnull _ (is_list_range true _ _ _ _ His Hs)).
  unfold nullptr in *. congruence.
Qed.

(** X22: with CHECKs enabled no violation of a precondition goes unnoticed.
    In a program with one list, an operation that returns has inserted a
    node that was in no list, or erased a node that was in this list. *)
Theorem checks_complete (b : Bridge) (h : heap) (L : LinkedList)
    (l : list Z) (o : op) (st : heap * LinkedList) :
  list_inv true h L l → step true b (h, L) o = Ok st →
  valid_op b (sentinel_ L) l o.
Proof.
  intros Hinv Hrun. pose proof Hinv as (His & _).
  destruct o as [v|v|v|[p]]; simpl in *.
  - unfold push_back in Hrun. rewrite (end_ok true _ _ _ His) in Hrun.
    simpl in Hrun. by eapply insert_checked_valid.
  - unfold push_front in Hrun. rewrite (begin_ok true _ _ _ His) in Hrun.
    simpl in Hrun. by eapply insert_checked_valid.
  - by eapply erase_checked_valid.
  - assert (Hp : p ≠ nullptr).
    { unfold erase_pos in Hrun.
      apply bind_Ok_inv in Hrun as (? & Hp%ASSUME_Ok_inv & _).
      by apply negb_true_iff, Z.eqb_neq in Hp. }
    assert (E : NodeForHost (mkBridge 0) p = p)
      by (unfold NodeForHost; simpl; lia).
    rewrite <- E. apply (erase_checked_valid (mkBridge 0) h L l p st Hinv).
    rewrite (erase_as_erase_pos true (mkBridge 0)); rewrite E; done.
Qed.

Lemma checks_complete_witness :
  let ops := [PushBack 100; PushBack 300] in
  let h := (ex_state ops).1 in
  let L := (ex_state ops).2 in
  list_inv true h L [108; 308] ∧
  (∃ st, step true ex_bridge (h, L) (Erase 300) = Ok st) ∧
  valid_op ex_bridge (sentinel_ L) [108; 308] (Erase 300).
Proof.
  intros ops h L.
  assert (Hfr : fresh_heap true ex_heap).
  { unfold fresh_heap, ex_heap, LinkedListNode_plain.
    repeat (apply map_Forall_insert_2; [by vm_compute|]).
    apply map_Forall_empty. }
  assert (Hinv : list_inv true h L [108; 308]).
  { pose proof (list_inv_new true ex_heap 1000 0 ltac:(by vm_compute) Hfr)
      as Hnew.
    apply (run_list_inv_abs true ex_bridge ops _ _ [] h L Hnew); [done|].
    by vm_compute. }
  assert (Hst : ∃ st, step true ex_bridge (h, L) (Erase 300) = Ok st)
    by (eexists; by vm_compute).
  split_and!; [done..|].
  destruct Hst as [st Hst].
  exact (checks_complete ex_bridge h L [108; 308] (Erase 300) st Hinv Hst).
Defined.

(** X23: the constructor makes an empty list whatever the memory held:
    [size()] is 0, [empty()] holds, [begin()] equals [end()], the traversal
    yields nothing, and no other cell is written. *)
Theorem LinkedList_new_empty (check : bool) (b : Bridge) (h : heap)
    (s junk : Z) :
  s ≠ nullptr →
  let st := LinkedList_new check h s junk in
  size st.2 = 0 ∧ empty check st.1 st.2 = Ok true ∧
  begin check st.1 st.2 = Ok (mkIter s) ∧
  end_ check st.2 = Ok (mkIter s) ∧
  forward check 0 b st.1 st.2 = Ok [] ∧
  ∀ x, x ≠ s → st.1 !! x = h !! x.
Proof.
  intros Hs st. unfold st, LinkedList_new, LinkedListNode_sentinel. simpl.
  unfold forward, empty, begin, end_, next, iterator_new, BERRYDB_ASSUME,
    if_check_is_on, BERRYDB_CHECK, nullptr in *. simpl.
  destruct check; exec; unfold iterator_eq; simpl; rewrite ?Z.eqb_refl;
    (split_and!; [done..|]); intros x Hx; by rewrite lookup_insert_ne.
Qed.

Lemma LinkedList_new_empty_witness :
  1000 ≠ nullptr ∧
  let st := LinkedList_new true ex_heap 1000 0 in
  size st.2 = 0 ∧ empty true st.1 st.2 = Ok true ∧
  begin true st.1 st.2 = Ok (mkIter 1000) ∧
  end_ true st.2 = Ok (mkIter 1000) ∧
  forward true 0 ex_bridge st.1 st.2 = Ok [] ∧
  ∀ x, x ≠ 1000 → st.1 !! x = ex_heap !! x.
Proof.
  assert (H1 : 1000 ≠ nullptr) by done.
  split; [done|].
  exact (LinkedList_new_empty true ex_bridge ex_heap 1000 0 H1).
Defined.

(** X24: with CHECKs enabled, move-constructing from a node that is not a
    sentinel is fatal. *)
Theorem move_not_sentinel_fatal (fuel : nat) (h : heap) (this : Z)
    (other : LinkedList) (junk : Z) (nd : LinkedListNode) :
  h !! sentinel_ other = Some nd → list_sentinel_ nd ≠ sentinel_ other →
  this ≠ sentinel_ other →
  LinkedList_move true fuel h this other junk = Fatal.
Proof.
  intros Hnd Hls Hne.
  unfold LinkedList_move, LinkedListNode_move, if_check_is_on, BERRYDB_CHECK.
  rewrite (is_sentinel_Some _ _ nd) by (by rewrite lookup_insert_ne).
  rewrite (proj2 (Z.eqb_neq _ _)); [done|congruence].
Qed.

Lemma move_not_sentinel_fatal_witness :
  ex_abc.1 !! sentinel_ (mkList 208 1) = Some (mkNode 308 108 1000) ∧
  list_sentinel_ (mkNode 308 108 1000) ≠ sentinel_ (mkList 208 1) ∧
  2000 ≠ sentinel_ (mkList 208 1) ∧
  LinkedList_move true 3 ex_abc.1 2000 (mkList 208 1) 0 = Fatal.
Proof.
  assert (H1 : ex_abc.1 !! sentinel_ (mkList 208 1)
               = Some (mkNode 308 108 1000)) by (by vm_compute).
  assert (H2 : list_sentinel_ (mkNode 308 108 1000)
               ≠ sentinel_ (mkList 208 1)) by done.
  assert (H3 : 2000 ≠ sentinel_ (mkList 208 1)) by done.
  split_and!; [done..|].
  exact (move_not_sentinel_fatal 3 ex_abc.1 2000 (mkList 208 1) 0 _
           H1 H2 H3).
Defined.

(** X25: [Remove] of a node of a list links its two neighbours to each
    other.  With CHECKs enabled the three fields of the removed node are
    nulled; without CHECKs its cell is left exactly as it was, still pointing
    at its former neighbours. *)
Theorem Remove_detaches (check : bool) (h : heap) (s : Z) (l1 l2 : list Z)
    (n : Z) :
  is_list check h s (l1 ++ n :: l2) →
  ∃ h' nd,
    h !! n = Some nd ∧ Remove check h n = Ok h' ∧
    h' !! n = Some (if check then mkNode nullptr nullptr nullptr else nd) ∧
    link h' (default s (last l1)) (default s (head l2)) ∧
    is_list check h' s (l1 ++ l2).
Proof.
  intros His.
  pose proof His as (Hc & Hnd & _).
  apply chain_app in Hc as [Hc1 [_ Hc2]].
  apply chain_last_link in Hc1. apply chain_first_link in Hc2.
  simpl in Hc1.
  destruct Hc1 as [(np & Hp & Hpn)%get_next_Some
                   (nd & Hn & Hnp)%get_prev_Some].
  destruct Hc2 as [(nd' & Hn' & Hnn)%get_next_Some
                   (nnx & Hnx & Hnxp)%get_prev_Some].
  rewrite Hn in Hn'. injection Hn' as <-.
  pose proof (default_last_elem s l1) as Hpin.
  pose proof (default_head_elem s l2) as Hnxin.
  assert (Hnin : n ∈ s :: l1 ++ n :: l2) by set_solver.
  assert (Hpin' : default s (last l1) ∈ s :: l1 ++ n :: l2) by set_solver.
  assert (Hnxin' : default s (head l2) ∈ s :: l1 ++ n :: l2) by set_solver.
  pose proof (in_range_nonnull _ (is_list_range check _ _ _ _ His Hnin)).
  pose proof (in_range_nonnull _ (is_list_range check _ _ _ _ His Hpin')).
  pose proof (in_range_nonnull _ (is_list_range check _ _ _ _ His Hnxin')).
  assert (Hs0 : s ≠ 0).
  { apply in_range_nonnull, (is_list_range check h s (l1 ++ n :: l2));
      [done|set_solver]. }
  rewrite app_comm_cons, <- Permutation_middle in Hnd.
  apply NoDup_cons in Hnd as [Hnotin Hnd].
  assert (Hown : check = true → list_sentinel_ nd = s).
  { intros Hck. pose proof (is_list_owner check _ _ _ _ His Hck Hnin) as Ho.
    apply get_list_sentinel_Some in Ho as (? & ? & ?). by simplify_eq. }
  assert (Hns : n ≠ s) by set_solver.
  destruct (Remove_ok check h n nd nnx np)
    as (h' & Hrm & Hnx' & Hpv' & Hls'); try done.
  { by rewrite Hnn. }
  { by rewrite Hnp. }
  { rewrite Hnn. intros Heq. apply Hnotin. rewrite Heq. set_solver. }
  { rewrite Hnp. intros Heq. apply Hnotin. rewrite Heq. set_solver. }
  { by rewrite Hnn. }
  { by rewrite Hnp. }
  { intros Hck. rewrite (Hown Hck). done. }
  rewrite Hnn, Hnp in *.
  pose proof (is_list_remove check h h' s l1 l2 n _ _ _ His Hnx' Hpv' Hls')
    as His'.
  exists h', nd. split_and!; try done.
  - assert (Hcell : h' !! n
                    = Some (mkNode (if check then 0 else default s (head l2))
                              (if check then 0 else default s (last l1))
                              (if check then 0 else list_sentinel_ nd))).
    { apply heap_cell_fields.
      - rewrite Hnx'. by rewrite decide_True.
      - rewrite Hpv'. by rewrite decide_True.
      - rewrite Hls'. by rewrite decide_True. }
    rewrite Hcell. clear -Hnn Hnp. destruct check; [done|].
    destruct nd; simpl in *. by subst.
  - destruct His' as (Hc' & _). apply chain_app in Hc' as [Hc' _].
    by apply chain_last_link in Hc'.
Qed.

Lemma Remove_detaches_witness :
  let st := ex_state_unchecked [PushBack 100; PushBack 200] in
  is_list false st.1 1000 ([108] ++ 208 :: []) ∧
  ∃ h' nd,
    st.1 !! 208 = Some nd ∧ Remove false st.1 208 = Ok h' ∧
    h' !! 208 = Some nd ∧
    link h' (default 1000 (last [108])) (default 1000 (head [])) ∧
    is_list false h' 1000 ([108] ++ []).
Proof.
  intros st.
  assert (H1 : is_list false st.1 1000 ([108] ++ 208 :: [])).
  { split_and!; [simpl; split_and!; by vm_compute| | |done].
    - apply (bool_decide_unpack _). by vm_compute.
    - apply (bool_decide_unpack _). by vm_compute. }
  split; [done|].
  exact (Remove_detaches false st.1 1000 [108] [] 208 H1).
Defined.
